(** * The eth/63 wire protocol of py-evm (p2p/eth.py)

    A shallow embedding of [p2p/eth.py]: the command classes with their
    identifiers and structures, the [ETHProtocol] registry and its send
    operations, together with the RLP codec ([rlp], [rlp.sedes]) the
    structures are written in. *)

From Stdlib Require Import ZArith Lia.
From Stdlib.Strings Require Import Byte.
From stdpp Require Import base option list gmap strings.

Local Open Scope Z_scope.

(** ** Bytes *)

(** A Python [bytes] object. *)
Abbreviation bytes := (list byte).

(** [b[i]] read as an integer, and the one-byte string of an integer. *)
Definition ord (b : byte) : Z := Z.of_N (Byte.to_N b).

Definition chr (z : Z) : byte := default x00 (Byte.of_N (Z.to_N z)).

(** [len(bs)] as a Python integer. *)
Definition len {A} (l : list A) : Z := Z.of_nat (length l).

(** [int.bit_length()]. *)
Definition bit_length (z : Z) : Z :=
  if decide (z = 0) then 0 else Z.log2 (Z.abs z) + 1.

(** [z.to_bytes(n, 'big')] for a non-negative [z] that fits. *)
Fixpoint to_bytes (n : nat) (z : Z) : bytes :=
  match n with
  | O => []
  | S n' => to_bytes n' (z `div` 256) ++ [chr (z `mod` 256)]
  end.

(** [(value.bit_length() + 7) // 8 or 1]: the number of bytes
    [int_to_big_endian] produces. *)
Definition byte_length (z : Z) : Z :=
  let n := (bit_length z + 7) `div` 8 in if decide (n = 0) then 1 else n.

(** [eth_utils.int_to_big_endian]:
    [value.to_bytes((value.bit_length() + 7) // 8 or 1, 'big')]. *)
Definition int_to_big_endian (z : Z) : bytes :=
  to_bytes (Z.to_nat (byte_length z)) z.

(** [eth_utils.big_endian_to_int]: [int.from_bytes(value, 'big')]. *)
Definition big_endian_to_int (bs : bytes) : Z :=
  foldl (λ acc b, acc * 256 + ord b) 0 bs.

(** ** The RLP codec: [rlp.encode] and [rlp.decode] of the pyrlp library *)

Module rlp.

(** What [encode_raw] takes and [decode] yields before a sedes is
    applied: a byte string or a list of such items. *)
#[warnings="-register-all"] Inductive item :=
| Str (bs : bytes)
| Lst (items : list item).

Definition LONG_LENGTH : Z := 256 ^ 8.

(** [length_prefix(length, offset)]; [None] is the [ValueError] for a
    length of [256**8] or more. *)
Definition length_prefix (length offset : Z) : option bytes :=
  if decide (length < 56) then Some [chr (offset + length)]
  else if decide (length < LONG_LENGTH) then
    let length_string := int_to_big_endian length in
    Some (chr (offset + 56 - 1 + len length_string) :: length_string)
  else None.

Definition is_single_byte (bs : bytes) : bool :=
  match bs with
  | [b] => bool_decide (ord b < 128)
  | _ => false
  end.

(** [encode_raw(item)]. *)
Fixpoint encode_raw (it : item) : option bytes :=
  match it with
  | Str bs =>
      if is_single_byte bs then Some bs
      else prefix ← length_prefix (len bs) 128; Some (prefix ++ bs)
  | Lst items =>
      encoded ← mapM encode_raw items;
      let payload := concat encoded in
      prefix ← length_prefix (len payload) 192;
      Some (prefix ++ payload)
  end.

Inductive type_ := bytes_ | list_.

(** [rlp[start + 1:start + 2] == b'\x00']. *)
Definition starts_with_zero (rest : bytes) : bool :=
  match rest with
  | b :: _ => bool_decide (ord b = 0)
  | [] => false
  end.

(** [consume_length_prefix(rlp, start)] on the bytes from [start] on:
    the type and length of the payload and the bytes from where the
    payload starts. [None] is a [DecodingError] (or the [IndexError]
    that [decode] turns into one). *)
Definition consume_length_prefix (rlp : bytes) : option (type_ * Z * bytes) :=
  match rlp with
  | [] => None
  | b :: rest =>
      let b0 := ord b in
      if decide (b0 < 128) then Some (bytes_, 1, rlp)
      else if decide (b0 < 128 + 56) then
        match rest with
        | b1 :: _ =>
            if decide (b0 - 128 = 1 ∧ ord b1 < 128) then None
            else Some (bytes_, b0 - 128, rest)
        | [] => if decide (b0 - 128 = 1) then None else Some (bytes_, b0 - 128, rest)
        end
      else if decide (b0 < 192) then
        let ll := b0 - 183 in
        if starts_with_zero rest then None
        else if decide (len rest < ll) then None
        else
          let l := big_endian_to_int (take (Z.to_nat ll) rest) in
          if decide (l < 56) then None
          else Some (bytes_, l, drop (Z.to_nat ll) rest)
      else if decide (b0 < 192 + 56) then Some (list_, b0 - 192, rest)
      else
        let ll := b0 - 192 - 56 + 1 in
        if starts_with_zero rest then None
        else if decide (len rest < ll) then None
        else
          let l := big_endian_to_int (take (Z.to_nat ll) rest) in
          if decide (l < 56) then None
          else Some (list_, l, drop (Z.to_nat ll) rest)
  end.

(** [consume_item(rlp, start)]: the first item of [rlp] and the bytes
    after it. The items of a list are read from its payload until the
    payload is used up. [fuel] bounds the depth of the recursion. *)
Fixpoint consume_item (fuel : nat) (rlp : bytes) : option (item * bytes) :=
  match fuel with
  | O => None
  | S fuel =>
      '(t, l, rest) ← consume_length_prefix rlp;
      if decide (len rest < l) then None
      else
        let payload := take (Z.to_nat l) rest in
        let rest := drop (Z.to_nat l) rest in
        match t with
        | bytes_ => Some (Str payload, rest)
        | list_ => items ← consume_items fuel payload; Some (Lst items, rest)
        end
  end
with consume_items (fuel : nat) (payload : bytes) : option (list item) :=
  match fuel with
  | O => None
  | S fuel =>
      match payload with
      | [] => Some []
      | _ =>
          '(it, rest) ← consume_item fuel payload;
          items ← consume_items fuel rest;
          Some (it :: items)
      end
  end.

(** [decode(rlp, strict=True)] without a sedes: the one item [rlp]
    holds; superfluous bytes are an error. Twice the length of the
    input is fuel enough for any input. *)
Definition decode_raw (rlp : bytes) : option item :=
  '(it, rest) ← consume_item (2 * length rlp + 1) rlp;
  match rest with
  | [] => Some it
  | _ :: _ => None
  end.

(** The length of the encoding of an item, were there no limit on it. *)
Definition prefix_length (length : Z) : Z :=
  if decide (length < 56) then 1 else 1 + byte_length length.

Fixpoint encoded_length (it : item) : Z :=
  match it with
  | Str bs =>
      if is_single_byte bs then 1 else prefix_length (len bs) + len bs
  | Lst items =>
      let payload := foldr (λ it acc, encoded_length it + acc) 0 items in
      prefix_length payload + payload
  end.

(** [rlp.Serializable]: a class whose objects have a serial form, from
    which they are read back. *)
Class Serializable (T : Type) := {
  serialize_obj : T → item;
  deserialize_obj : item → option T;
  deserialize_serialize_obj obj : deserialize_obj (serialize_obj obj) = Some obj;
}.

(** Modelled from the spec: the classes the protocol carries
    ([eth.rlp.headers.BlockHeader],
    [eth.rlp.transactions.BaseTransactionFields],
    [eth.rlp.receipts.Receipt], [p2p.rlp.BlockBody]) are not among the
    sources. The spec has them as opaque value types that the codec
    encodes and decodes, supplied by other subsystems: here any four
    [Serializable] types. *)
Class Objects := {
  BlockHeader : Type;
  BaseTransactionFields : Type;
  Receipt : Type;
  BlockBody : Type;
  #[global] BlockHeader_Serializable :: Serializable BlockHeader;
  #[global] BaseTransactionFields_Serializable :: Serializable BaseTransactionFields;
  #[global] Receipt_Serializable :: Serializable Receipt;
  #[global] BlockBody_Serializable :: Serializable BlockBody;
}.

(** The Python values that are handed to the codec. Lists and tuples
    are both sequences to [rlp] and are not told apart. *)
#[warnings="-register-all"] Inductive value `{Objects} :=
| VInt (n : Z)
| VBool (b : bool)
| VBytes (bs : bytes)
| VStr (s : string)
| VHeader (h : BlockHeader)
| VTransaction (t : BaseTransactionFields)
| VReceipt (r : Receipt)
| VBody (b : BlockBody)
| VSeq (vs : list value).

Module sedes.

(** The sedes objects the command structures are built from. *)
#[warnings="-register-all"] Inductive t :=
| big_endian_int
| binary
| boolean
| HashOrNumber
| BlockHeader
| BaseTransactionFields
| Receipt
| BlockBody
| List (elements : list t)
| CountableList (element_sedes : t).

Section with_objects.
Context `{Objects}.

(** [BigEndianInt.serialize] and [deserialize] (no fixed length). *)
Definition big_endian_int_serialize (obj : value) : option item :=
  match obj with
  | VInt n =>
      if decide (n < 0) then None
      else if decide (n = 0) then Some (Str [])
      else Some (Str (int_to_big_endian n))
  | _ => None
  end.

Definition big_endian_int_deserialize (serial : item) : option value :=
  match serial with
  | Str bs =>
      if starts_with_zero bs then None
      else Some (VInt (big_endian_to_int (match bs with [] => [x00] | _ => bs end)))
  | Lst _ => None
  end.

(** [Binary.serialize] and [deserialize] (no length bounds). *)
Definition binary_serialize (obj : value) : option item :=
  match obj with
  | VBytes bs => Some (Str bs)
  | _ => None
  end.

Definition binary_deserialize (serial : item) : option value :=
  match serial with
  | Str bs => Some (VBytes bs)
  | Lst _ => None
  end.

(** [Boolean.serialize] and [deserialize]. *)
Definition boolean_serialize (obj : value) : option item :=
  match obj with
  | VBool false => Some (Str [])
  | VBool true => Some (Str [x01])
  | _ => None
  end.

Definition boolean_deserialize (serial : item) : option value :=
  match serial with
  | Str [] => Some (VBool false)
  | Str [b] => if decide (ord b = 1) then Some (VBool true) else None
  | _ => None
  end.

(** Modelled from the spec: [p2p.sedes.HashOrNumber] is not among
    the sources. The spec has it as the codec's one variant type,
    an integer or a 32-byte hash. Both are byte strings on the
    wire: an integer goes out as [big_endian_int] does it, anything
    else as [binary] does it, and a byte string that comes in is a
    hash when it is 32 bytes long and an integer otherwise. *)
Definition HashOrNumber_serialize (obj : value) : option item :=
  match obj with
  | VInt _ | VBool _ => big_endian_int_serialize obj
  | _ => binary_serialize obj
  end.

Definition HashOrNumber_deserialize (serial : item) : option value :=
  match serial with
  | Str bs =>
      if decide (len bs = 32) then Some (VBytes bs)
      else big_endian_int_deserialize serial
  | Lst _ => None
  end.

(** [sedes.serialize(obj)]; [None] is a [SerializationError]. *)
Fixpoint serialize (sedes : t) (obj : value) {struct sedes} : option item :=
  match sedes with
  | big_endian_int => big_endian_int_serialize obj
  | binary => binary_serialize obj
  | boolean => boolean_serialize obj
  | HashOrNumber => HashOrNumber_serialize obj
  | BlockHeader =>
      match obj with VHeader h => Some (serialize_obj h) | _ => None end
  | BaseTransactionFields =>
      match obj with VTransaction t => Some (serialize_obj t) | _ => None end
  | Receipt =>
      match obj with VReceipt r => Some (serialize_obj r) | _ => None end
  | BlockBody =>
      match obj with VBody b => Some (serialize_obj b) | _ => None end
  | List elements =>
      match obj with
      | VSeq vs =>
          if decide (length elements ≠ length vs) then None
          else
            Lst <$>
              (fix go (elements : list t) (vs : list value) : option (list item) :=
                 match elements, vs with
                 | sedes :: elements, element :: vs =>
                     i ← serialize sedes element;
                     r ← go elements vs;
                     Some (i :: r)
                 | _, _ => Some []
                 end) elements vs
      | _ => None
      end
  | CountableList element_sedes =>
      match obj with
      | VSeq vs => Lst <$> mapM (serialize element_sedes) vs
      | _ => None
      end
  end.

(** [sedes.deserialize(serial)]; [None] is a [DeserializationError]. *)
Fixpoint deserialize (sedes : t) (serial : item) {struct sedes} : option value :=
  match sedes with
  | big_endian_int => big_endian_int_deserialize serial
  | binary => binary_deserialize serial
  | boolean => boolean_deserialize serial
  | HashOrNumber => HashOrNumber_deserialize serial
  | BlockHeader => VHeader <$> deserialize_obj serial
  | BaseTransactionFields => VTransaction <$> deserialize_obj serial
  | Receipt => VReceipt <$> deserialize_obj serial
  | BlockBody => VBody <$> deserialize_obj serial
  | List elements =>
      match serial with
      | Lst items =>
          if decide (length items ≠ length elements) then None
          else
            VSeq <$>
              (fix go (elements : list t) (items : list item) : option (list value) :=
                 match elements, items with
                 | sedes :: elements, element :: items =>
                     v ← deserialize sedes element;
                     r ← go elements items;
                     Some (v :: r)
                 | _, _ => Some []
                 end) elements items
      | Str _ => None
      end
  | CountableList element_sedes =>
      match serial with
      | Lst items => VSeq <$> mapM (deserialize element_sedes) items
      | Str _ => None
      end
  end.

End with_objects.

End sedes.

Section with_objects.
Context `{Objects}.

(** [rlp.encode(obj, sedes)] and [rlp.decode(rlp, sedes)]. *)
Definition encode (obj : value) (sedes : sedes.t) : option bytes :=
  item ← sedes.serialize sedes obj; encode_raw item.

Definition decode (rlp : bytes) (sedes : sedes.t) : option value :=
  item ← decode_raw rlp; sedes.deserialize sedes item.

End with_objects.

End rlp.

Import rlp.

(** ** p2p.protocol: commands and the protocol base class *)

(** [_DecodedMsgType]: what a command encodes and what it decodes to, a
    [dict] from field names to values or a sequence of values. *)
Inductive _DecodedMsgType `{Objects} :=
| Dict (d : gmap string value)
| Seq (l : list value).

(** [tuple(msg)]. Iterating over a [dict] yields its keys (here in the
    order of the map, not in that of insertion). *)
Definition tuple `{Objects} (msg : _DecodedMsgType) : list value :=
  match msg with
  | Seq l => l
  | Dict d => VStr <$> (map_to_list d).*1
  end.

Module Command.

(** The [structure] attribute of a command class: a list of
    [(field name, sedes)] pairs or a [sedes.CountableList]. *)
Inductive structure_t :=
| FieldList (fields : list (string * sedes.t))
| Sedes (sedes : sedes.t).

(** A command class: its name, [_cmd_id] and [structure]. *)
Record class := {
  __name__ : string;
  _cmd_id : Z;
  structure : structure_t;
}.

(** A command object, [cls(cmd_id_offset)]. *)
Record t := new {
  cls : class;
  cmd_id_offset : Z;
}.

Section with_objects.
Context `{Objects}.

(** Modelled from the spec: the base class [Command] of [p2p.protocol]
    is not among the sources. By the spec the absolute command ID of a
    command is the base offset plus its identifier; a message is a
    (header, body) pair of byte strings, the header carries the absolute
    command ID, and the body is the payload encoded by the codec, the
    values in the order and nesting of the command's structure. A value
    that the codec cannot map to the structure is a schema mismatch
    ([None]). A command with named fields takes a [dict] with exactly
    these keys (or the sequence of the values of the fields) and decodes
    to a [dict]; a command whose structure is a [CountableList] takes a
    sequence and decodes to one. *)
Definition cmd_id (self : t) : Z := cmd_id_offset self + _cmd_id (cls self).

Definition encode_payload (self : t) (data : _DecodedMsgType) : option bytes :=
  match structure (cls self) with
  | FieldList fields =>
      data ←
        match data with
        | Dict d =>
            if decide (dom d = list_to_set fields.*1)
            then mapM (λ name, d !! name) fields.*1
            else None
        | Seq l => Some l
        end;
      rlp.encode (VSeq data) (sedes.List fields.*2)
  | Sedes (sedes.CountableList _ as encoder) =>
      match data with
      | Dict _ => None
      | Seq l => rlp.encode (VSeq l) encoder
      end
  | Sedes _ => None
  end.

Definition decode_payload (self : t) (rlp_data : bytes) : option _DecodedMsgType :=
  match structure (cls self) with
  | FieldList fields =>
      data ← rlp.decode rlp_data (sedes.List fields.*2);
      match data with
      | VSeq data =>
          Some (Dict (foldl (λ d '(field_name, value), <[field_name:=value]> d) ∅
                            (zip fields.*1 data)))
      | _ => None
      end
  | Sedes (sedes.CountableList _ as decoder) =>
      data ← rlp.decode rlp_data decoder;
      match data with
      | VSeq data => Some (Seq data)
      | _ => None
      end
  | Sedes _ => None
  end.

Definition encode (self : t) (data : _DecodedMsgType) : option (bytes * bytes) :=
  payload ← encode_payload self data;
  header ← rlp.encode (VInt (cmd_id self)) sedes.big_endian_int;
  Some (header, payload).

(** The absolute command ID a header carries. *)
Definition header_cmd_id (header : bytes) : option Z :=
  v ← rlp.decode header sedes.big_endian_int;
  match v with
  | VInt n => Some n
  | _ => None
  end.

End with_objects.

End Command.

Coercion Command.new : Command.class >-> Funclass.

Module Protocol.

(** What a send operation can fail with: [CeilingExceeded] is the
    [ValueError] raised for a request above its ceiling, [SchemaMismatch]
    an error of the codec. *)
Inductive exception := CeilingExceeded | SchemaMismatch.

Inductive outcome (A : Type) :=
| Returns (a : A)
| Raises (e : exception).
Arguments Returns {A} a.
Arguments Raises {A} e.

(** The transport of a connection, as the list of the (header, body)
    pairs handed to it so far. *)
Abbreviation transport := (list (bytes * bytes)).

(** A method that may send and may raise. *)
Definition action (A : Type) : Type := transport → outcome A * transport.

#[global] Instance action_ret : MRet action := λ A a sent, (Returns a, sent).

#[global] Instance action_bind : MBind action := λ A B f m sent,
  match m sent with
  | (Returns a, sent) => f a sent
  | (Raises e, sent) => (Raises e, sent)
  end.

Definition raise {A} (e : exception) : action A := λ sent, (Raises e, sent).

(** A call into the codec: its error is raised. *)
Definition codec {A} (r : option A) : action A :=
  match r with
  | Some a => mret a
  | None => raise SchemaMismatch
  end.

(** Modelled from the spec: the peer of a connection ([p2p.peer], not
    among the sources), with its configured network identifier. *)
Record BasePeer := {
  network_id : Z;
}.

(** A protocol object, [Protocol(peer, cmd_id_offset)]. *)
Record t := {
  peer : BasePeer;
  cmd_id_offset : Z;
}.

(** Modelled from the spec: the base class [Protocol] of [p2p.protocol]
    is not among the sources. [send(header, body)] hands the pair to the
    transport of the connection. *)
Definition send (self : t) (header body : bytes) : action unit :=
  λ sent, (Returns (), sent ++ [(header, body)]).

End Protocol.

(** Modelled from the spec: [p2p.peer.ChainInfo] is not among the
    sources. The head of the local chain, with the attributes that
    [send_handshake] reads: its block hash, its total difficulty and the
    genesis hash. *)
Record ChainInfo := {
  block_hash : bytes;
  total_difficulty : Z;
  genesis_hash : bytes;
}.

(** [eth_typing.BlockIdentifier]: a block number or a block hash. *)
Inductive BlockIdentifier :=
| BlockNumber (n : Z)
| Hash32 (h : bytes).

Definition BlockIdentifier_value `{Objects} (b : BlockIdentifier) : value :=
  match b with
  | BlockNumber n => VInt n
  | Hash32 h => VBytes h
  end.

(** ** p2p/eth.py *)

Definition MAX_STATE_FETCH : Z := 384.
Definition MAX_BODIES_FETCH : Z := 128.
Definition MAX_RECEIPTS_FETCH : Z := 256.
Definition MAX_HEADERS_FETCH : Z := 192.

Import Command.

Definition Status : Command.class := {|
  __name__ := "Status";
  _cmd_id := 0;
  structure := FieldList [
    ("protocol_version", sedes.big_endian_int);
    ("network_id", sedes.big_endian_int);
    ("td", sedes.big_endian_int);
    ("best_hash", sedes.binary);
    ("genesis_hash", sedes.binary)
  ];
|}.

Definition NewBlockHashes : Command.class := {|
  __name__ := "NewBlockHashes";
  _cmd_id := 1;
  structure :=
    Sedes (sedes.CountableList (sedes.List [sedes.binary; sedes.big_endian_int]));
|}.

Definition Transactions : Command.class := {|
  __name__ := "Transactions";
  _cmd_id := 2;
  structure := Sedes (sedes.CountableList sedes.BaseTransactionFields);
|}.

Definition GetBlockHeaders : Command.class := {|
  __name__ := "GetBlockHeaders";
  _cmd_id := 3;
  structure := FieldList [
    ("block_number_or_hash", sedes.HashOrNumber);
    ("max_headers", sedes.big_endian_int);
    ("skip", sedes.big_endian_int);
    ("reverse", sedes.boolean)
  ];
|}.

Definition BlockHeaders : Command.class := {|
  __name__ := "BlockHeaders";
  _cmd_id := 4;
  structure := Sedes (sedes.CountableList sedes.BlockHeader);
|}.

(** [BlockHeaders.extract_headers]: [cast] does nothing at run time. *)
Definition extract_headers `{Objects} (self : Command.t) (msg : _DecodedMsgType)
  : list value :=
  tuple msg.

Definition GetBlockBodies : Command.class := {|
  __name__ := "GetBlockBodies";
  _cmd_id := 5;
  structure := Sedes (sedes.CountableList sedes.binary);
|}.

Definition BlockBodies : Command.class := {|
  __name__ := "BlockBodies";
  _cmd_id := 6;
  structure := Sedes (sedes.CountableList sedes.BlockBody);
|}.

Definition NewBlock : Command.class := {|
  __name__ := "NewBlock";
  _cmd_id := 7;
  structure := FieldList [
    ("block", sedes.List [sedes.BlockHeader;
                          sedes.CountableList sedes.BaseTransactionFields;
                          sedes.CountableList sedes.BlockHeader]);
    ("total_difficulty", sedes.big_endian_int)
  ];
|}.

Definition GetNodeData : Command.class := {|
  __name__ := "GetNodeData";
  _cmd_id := 13;
  structure := Sedes (sedes.CountableList sedes.binary);
|}.

Definition NodeData : Command.class := {|
  __name__ := "NodeData";
  _cmd_id := 14;
  structure := Sedes (sedes.CountableList sedes.binary);
|}.

Definition GetReceipts : Command.class := {|
  __name__ := "GetReceipts";
  _cmd_id := 15;
  structure := Sedes (sedes.CountableList sedes.binary);
|}.

Definition Receipts : Command.class := {|
  __name__ := "Receipts";
  _cmd_id := 16;
  structure := Sedes (sedes.CountableList (sedes.CountableList sedes.Receipt));
|}.

Module ETHProtocol.

Import Protocol.

Definition name : string := "eth".
Definition version : Z := 63.
Definition _commands : list Command.class := [
  Status; NewBlockHashes; Transactions; GetBlockHeaders; BlockHeaders; BlockHeaders;
  GetBlockBodies; BlockBodies; NewBlock; GetNodeData; NodeData;
  GetReceipts; Receipts].
Definition cmd_length : Z := 17.

Section with_objects.
Context `{Objects}.

(** The send operations; the call of the logger in [send_handshake]
    sends nothing and is left out. *)
Definition send_handshake (self : Protocol.t) (head_info : ChainInfo) : action unit :=
  let resp : gmap string value := {[
    "protocol_version" := VInt version;
    "network_id" := VInt (network_id (peer self));
    "td" := VInt (total_difficulty head_info);
    "best_hash" := VBytes (block_hash head_info);
    "genesis_hash" := VBytes (genesis_hash head_info)
  ]} in
  let cmd := Status (cmd_id_offset self) in
  '(header, body) ← codec (Command.encode cmd (Dict resp));
  send self header body.

Definition send_get_node_data (self : Protocol.t) (node_hashes : list bytes)
  : action unit :=
  let cmd := GetNodeData (cmd_id_offset self) in
  '(header, body) ← codec (Command.encode cmd (Seq (VBytes <$> node_hashes)));
  send self header body.

Definition send_node_data (self : Protocol.t) (nodes : list bytes) : action unit :=
  let cmd := NodeData (cmd_id_offset self) in
  '(header, body) ← codec (Command.encode cmd (Seq (VBytes <$> nodes)));
  send self header body.

Definition send_get_block_headers (self : Protocol.t)
    (block_number_or_hash : BlockIdentifier) (max_headers skip : Z) (reverse : bool)
  : action unit :=
  if decide (max_headers > MAX_HEADERS_FETCH) then raise CeilingExceeded
  else
    let cmd := GetBlockHeaders (cmd_id_offset self) in
    let data : gmap string value := {[
      "block_number_or_hash" := BlockIdentifier_value block_number_or_hash;
      "max_headers" := VInt max_headers;
      "skip" := VInt skip;
      "reverse" := VBool reverse
    ]} in
    '(header, body) ← codec (Command.encode cmd (Dict data));
    send self header body.

Definition send_block_headers (self : Protocol.t) (headers : list BlockHeader)
  : action unit :=
  let cmd := BlockHeaders (cmd_id_offset self) in
  '(header, body) ← codec (Command.encode cmd (Seq (VHeader <$> headers)));
  send self header body.

Definition send_get_block_bodies (self : Protocol.t) (block_hashes : list bytes)
  : action unit :=
  let cmd := GetBlockBodies (cmd_id_offset self) in
  '(header, body) ← codec (Command.encode cmd (Seq (VBytes <$> block_hashes)));
  send self header body.

Definition send_block_bodies (self : Protocol.t) (blocks : list BlockBody)
  : action unit :=
  let cmd := BlockBodies (cmd_id_offset self) in
  '(header, body) ← codec (Command.encode cmd (Seq (VBody <$> blocks)));
  send self header body.

Definition send_get_receipts (self : Protocol.t) (block_hashes : list bytes)
  : action unit :=
  let cmd := GetReceipts (cmd_id_offset self) in
  '(header, body) ← codec (Command.encode cmd (Seq (VBytes <$> block_hashes)));
  send self header body.

Definition send_receipts (self : Protocol.t) (receipts : list (list Receipt))
  : action unit :=
  let cmd := Receipts (cmd_id_offset self) in
  '(header, body) ←
    codec (Command.encode cmd (Seq ((λ rs, VSeq (VReceipt <$> rs)) <$> receipts)));
  send self header body.

Definition send_transactions (self : Protocol.t)
    (transactions : list BaseTransactionFields) : action unit :=
  let cmd := Transactions (cmd_id_offset self) in
  '(header, body) ← codec (Command.encode cmd (Seq (VTransaction <$> transactions)));
  send self header body.

End with_objects.

End ETHProtocol.

(** ** The send operations and their messages *)

Section operations.
Context `{Objects}.

(** The [resp] that [send_handshake] builds and the [data] that
    [send_get_block_headers] builds. *)
Definition handshake_resp (self : Protocol.t) (head_info : ChainInfo) : _DecodedMsgType :=
  Dict {[
    "protocol_version" := VInt ETHProtocol.version;
    "network_id" := VInt (Protocol.network_id (Protocol.peer self));
    "td" := VInt (total_difficulty head_info);
    "best_hash" := VBytes (block_hash head_info);
    "genesis_hash" := VBytes (genesis_hash head_info)
  ]}.

Definition get_block_headers_data (block_number_or_hash : BlockIdentifier)
    (max_headers skip : Z) (reverse : bool) : _DecodedMsgType :=
  Dict {[
    "block_number_or_hash" := BlockIdentifier_value block_number_or_hash;
    "max_headers" := VInt max_headers;
    "skip" := VInt skip;
    "reverse" := VBool reverse
  ]}.

(** A call of one of the send operations of [ETHProtocol]. *)
Inductive operation :=
| handshake (head_info : ChainInfo)
| get_node_data (node_hashes : list bytes)
| node_data (nodes : list bytes)
| get_block_headers (block_number_or_hash : BlockIdentifier)
    (max_headers skip : Z) (reverse : bool)
| block_headers (headers : list BlockHeader)
| get_block_bodies (block_hashes : list bytes)
| block_bodies (blocks : list BlockBody)
| get_receipts (block_hashes : list bytes)
| receipts (receipts : list (list Receipt))
| transactions (transactions : list BaseTransactionFields).

Definition perform (self : Protocol.t) (op : operation) : Protocol.action unit :=
  match op with
  | handshake head_info => ETHProtocol.send_handshake self head_info
  | get_node_data node_hashes => ETHProtocol.send_get_node_data self node_hashes
  | node_data nodes => ETHProtocol.send_node_data self nodes
  | get_block_headers block_number_or_hash max_headers skip reverse =>
      ETHProtocol.send_get_block_headers self block_number_or_hash max_headers skip reverse
  | block_headers headers => ETHProtocol.send_block_headers self headers
  | get_block_bodies block_hashes => ETHProtocol.send_get_block_bodies self block_hashes
  | block_bodies blocks => ETHProtocol.send_block_bodies self blocks
  | get_receipts block_hashes => ETHProtocol.send_get_receipts self block_hashes
  | receipts rs => ETHProtocol.send_receipts self rs
  | transactions txs => ETHProtocol.send_transactions self txs
  end.

(** The command class an operation creates its command from. *)
Definition command_of (op : operation) : Command.class :=
  match op with
  | handshake _ => Status
  | get_node_data _ => GetNodeData
  | node_data _ => NodeData
  | get_block_headers _ _ _ _ => GetBlockHeaders
  | block_headers _ => BlockHeaders
  | get_block_bodies _ => GetBlockBodies
  | block_bodies _ => BlockBodies
  | get_receipts _ => GetReceipts
  | receipts _ => Receipts
  | transactions _ => Transactions
  end.

End operations.

(** ** Well-formed values *)

Section well_formed.
Context `{Objects}.

(** A value that conforms to a sedes: a non-negative integer for
    [big_endian_int], a byte string for [binary], a boolean for
    [boolean], an object of the class for a class, a sequence with one
    conforming value for each element of a [List], a sequence of
    conforming values for a [CountableList]. For [HashOrNumber] it is a
    hash of 32 bytes or a block number; as a byte string of 32 bytes is
    read as a hash, the number is one whose big-endian form does not
    have 32 bytes. *)
Fixpoint conforms (sedes : sedes.t) (obj : value) {struct sedes} : bool :=
  match sedes, obj with
  | sedes.big_endian_int, VInt n => bool_decide (0 ≤ n)
  | sedes.binary, VBytes _ => true
  | sedes.boolean, VBool _ => true
  | sedes.HashOrNumber, VInt n =>
      bool_decide (0 ≤ n ∧ len (int_to_big_endian n) ≠ 32)
  | sedes.HashOrNumber, VBytes h => bool_decide (len h = 32)
  | sedes.BlockHeader, VHeader _ => true
  | sedes.BaseTransactionFields, VTransaction _ => true
  | sedes.Receipt, VReceipt _ => true
  | sedes.BlockBody, VBody _ => true
  | sedes.List elements, VSeq vs =>
      (fix go (elements : list sedes.t) (vs : list value) : bool :=
         match elements, vs with
         | [], [] => true
         | sedes :: elements, v :: vs => conforms sedes v && go elements vs
         | _, _ => false
         end) elements vs
  | sedes.CountableList element_sedes, VSeq vs => forallb (conforms element_sedes) vs
  | _, _ => false
  end.

(** A message that conforms to the structure of a command class: a
    [dict] with the names of the fields as its keys and conforming
    values, or a sequence of conforming values. *)
Definition well_formed (cls : Command.class) (data : _DecodedMsgType) : bool :=
  match structure cls, data with
  | FieldList fields, Dict d =>
      bool_decide (dom d = list_to_set fields.*1)
      && forallb (λ '(name, sedes),
                    match d !! name with
                    | Some v => conforms sedes v
                    | None => false
                    end) fields
  | Sedes (sedes.CountableList _ as sedes), Seq l => conforms sedes (VSeq l)
  | _, _ => false
  end.

(** The number of bytes the serial form of a value takes when encoded
    (0 for a value that has no serial form). *)
Definition wire_length (sedes : sedes.t) (obj : value) : Z :=
  from_option encoded_length 0 (sedes.serialize sedes obj).

(** The number of bytes of the encoded payload of a message. *)
Definition payload_length (cls : Command.class) (data : _DecodedMsgType) : Z :=
  match structure cls, data with
  | FieldList fields, Dict d =>
      from_option (λ vs, wire_length (sedes.List fields.*2) (VSeq vs)) 0
                  (mapM (λ name, d !! name) fields.*1)
  | FieldList fields, Seq l => wire_length (sedes.List fields.*2) (VSeq l)
  | Sedes sedes, Seq l => wire_length sedes (VSeq l)
  | Sedes _, Dict _ => 0
  end.

(** A value of the shape that a sedes declares. It is [conforms] but
    for [HashOrNumber], the shape of which is an integer or a hash of 32
    bytes: every block number that is not negative is of the shape,
    whatever the length of its big-endian form. *)
Fixpoint of_shape (sedes : sedes.t) (obj : value) {struct sedes} : bool :=
  match sedes, obj with
  | sedes.big_endian_int, VInt n => bool_decide (0 ≤ n)
  | sedes.binary, VBytes _ => true
  | sedes.boolean, VBool _ => true
  | sedes.HashOrNumber, VInt n => bool_decide (0 ≤ n)
  | sedes.HashOrNumber, VBytes h => bool_decide (len h = 32)
  | sedes.BlockHeader, VHeader _ => true
  | sedes.BaseTransactionFields, VTransaction _ => true
  | sedes.Receipt, VReceipt _ => true
  | sedes.BlockBody, VBody _ => true
  | sedes.List elements, VSeq vs =>
      (fix go (elements : list sedes.t) (vs : list value) : bool :=
         match elements, vs with
         | [], [] => true
         | sedes :: elements, v :: vs => of_shape sedes v && go elements vs
         | _, _ => false
         end) elements vs
  | sedes.CountableList element_sedes, VSeq vs => forallb (of_shape element_sedes) vs
  | _, _ => false
  end.

(** A message of the shape that the structure of a command class
    declares: a [dict] with the names of the fields as its keys and
    values of the shapes of the fields, or a sequence of values of the
    shape of the elements. *)
Definition of_declared_shape (cls : Command.class) (data : _DecodedMsgType) : bool :=
  match structure cls, data with
  | FieldList fields, Dict d =>
      bool_decide (dom d = list_to_set fields.*1)
      && forallb (λ '(name, sedes),
                    match d !! name with
                    | Some v => of_shape sedes v
                    | None => false
                    end) fields
  | Sedes (sedes.CountableList _ as sedes), Seq l => of_shape sedes (VSeq l)
  | _, _ => false
  end.

End well_formed.

(** ** The messages of the operations *)

Section messages.
Context `{Objects}.

(** The message that a send operation hands to its command: the
    argument of [cmd.encode] in the operation. *)
Definition message_of (self : Protocol.t) (op : operation) : _DecodedMsgType :=
  match op with
  | handshake head_info => handshake_resp self head_info
  | get_node_data node_hashes => Seq (VBytes <$> node_hashes)
  | node_data nodes => Seq (VBytes <$> nodes)
  | get_block_headers block_number_or_hash max_headers skip reverse =>
      get_block_headers_data block_number_or_hash max_headers skip reverse
  | block_headers headers => Seq (VHeader <$> headers)
  | get_block_bodies block_hashes => Seq (VBytes <$> block_hashes)
  | block_bodies blocks => Seq (VBody <$> blocks)
  | get_receipts block_hashes => Seq (VBytes <$> block_hashes)
  | receipts rs => Seq ((λ rs, VSeq (VReceipt <$> rs)) <$> rs)
  | transactions txs => Seq (VTransaction <$> txs)
  end.

(** The operations that the check of [send_get_block_headers] stops. *)
Definition over_ceiling (op : operation) : bool :=
  match op with
  | get_block_headers _ max_headers _ _ => bool_decide (max_headers > MAX_HEADERS_FETCH)
  | _ => false
  end.

(** The operations that send a list as it is: all but the handshake
    and the request for block headers. *)
Definition sends_list (op : operation) : bool :=
  match op with
  | handshake _ | get_block_headers _ _ _ _ => false
  | _ => true
  end.

(** A message of the kind of the structure of a command class: a
    [dict] for named fields, a sequence for a [CountableList]. *)
Definition of_kind (c : Command.class) (data : _DecodedMsgType) : Prop :=
  match structure c, data with
  | FieldList _, Dict _ => True
  | Sedes _, Seq _ => True
  | _, _ => False
  end.

End messages.

(** A sedes in which [HashOrNumber] does not occur. *)
Fixpoint hash_free (sedes : sedes.t) : bool :=
  match sedes with
  | sedes.HashOrNumber => false
  | sedes.List elements => forallb hash_free elements
  | sedes.CountableList element_sedes => hash_free element_sedes
  | _ => true
  end.

(** Objects that are their own serial form: an instance of the classes
    the protocol carries. *)
#[local] Instance item_Serializable : Serializable item := {|
  serialize_obj := id;
  deserialize_obj := Some;
  deserialize_serialize_obj := λ _, eq_refl;
|}.

Definition serial_objects : Objects := {|
  rlp.BlockHeader := item;
  rlp.BaseTransactionFields := item;
  rlp.Receipt := item;
  rlp.BlockBody := item;
|}.

(** A connection for the examples: network 1, base offset 16. *)
Definition example_connection : Protocol.t := {|
  Protocol.peer := {| Protocol.network_id := 1 |};
  Protocol.cmd_id_offset := 16;
|}.

(** * Properties *)

Import Protocol.

Section bytes_facts.

Lemma ord_range b : 0 ≤ ord b < 256.
Proof.
  unfold ord. pose proof (Byte.to_N_bounded b). lia.
Qed.

Lemma ord_chr z : 0 ≤ z < 256 → ord (chr z) = z.
Proof.
  intros Hz. unfold ord, chr.
  destruct (Byte.of_N (Z.to_N z)) as [b|] eqn:E.
  - apply Byte.to_of_N in E. simpl. lia.
  - apply Byte.of_N_None_iff in E. lia.
Qed.

Lemma chr_ord b : chr (ord b) = b.
Proof.
  unfold ord, chr. by rewrite N2Z.id, Byte.of_to_N.
Qed.

Lemma ord_inj b1 b2 : ord b1 = ord b2 → b1 = b2.
Proof.
  intros E. rewrite <- (chr_ord b1), <- (chr_ord b2). by rewrite E.
Qed.

Lemma len_nonneg {A} (l : list A) : 0 ≤ len l.
Proof. unfold len. lia. Qed.

Lemma len_app {A} (l k : list A) : len (l ++ k) = len l + len k.
Proof. unfold len. rewrite length_app. lia. Qed.

Lemma len_cons {A} (x : A) (l : list A) : len (x :: l) = 1 + len l.
Proof. unfold len. simpl. lia. Qed.

Lemma length_to_bytes n z : length (to_bytes n z) = n.
Proof.
  revert z. induction n as [|n IH]; intros z; simpl; [done|].
  rewrite length_app, IH. simpl. lia.
Qed.

Lemma big_endian_to_int_snoc bs b :
  big_endian_to_int (bs ++ [b]) = big_endian_to_int bs * 256 + ord b.
Proof. unfold big_endian_to_int. by rewrite foldl_app. Qed.

Lemma big_endian_to_int_to_bytes n z :
  0 ≤ z → big_endian_to_int (to_bytes n z) = z `mod` 256 ^ Z.of_nat n.
Proof.
  revert z. induction n as [|n IH]; intros z Hz.
  - simpl. by rewrite Z.mod_1_r.
  - cbn [to_bytes]. rewrite big_endian_to_int_snoc, IH by (apply Z.div_pos; lia).
    rewrite ord_chr by (apply Z.mod_pos_bound; lia).
    rewrite Nat2Z.inj_succ, Z.pow_succ_r by lia.
    assert (0 < 256 ^ Z.of_nat n) by (apply Z.pow_pos_nonneg; lia).
    rewrite Z.rem_mul_r by lia. lia.
Qed.

Lemma bit_length_bound z : 0 ≤ z → z < 2 ^ bit_length z.
Proof.
  intros Hz. unfold bit_length. destruct (decide (z = 0)) as [->|Hne]; [done|].
  rewrite Z.abs_eq by done.
  pose proof (Z.log2_spec z). rewrite <- Z.add_1_r in *. lia.
Qed.

Lemma bit_length_lower z : 0 < z → 2 ^ (bit_length z - 1) ≤ z.
Proof.
  intros Hz. unfold bit_length. destruct (decide (z = 0)) as [->|Hne]; [lia|].
  rewrite Z.abs_eq by lia. replace (Z.log2 z + 1 - 1) with (Z.log2 z) by lia.
  pose proof (Z.log2_spec z). lia.
Qed.

Lemma bit_length_nonneg z : 0 ≤ bit_length z.
Proof.
  unfold bit_length. destruct (decide _); [done|].
  pose proof (Z.log2_nonneg (Z.abs z)). lia.
Qed.

Lemma bit_length_pos z : 0 < z → 0 < bit_length z.
Proof.
  intros Hz. unfold bit_length. destruct (decide _); [lia|].
  pose proof (Z.log2_nonneg (Z.abs z)). lia.
Qed.

Lemma byte_length_pos z : 0 < byte_length z.
Proof.
  unfold byte_length. pose proof (bit_length_nonneg z).
  destruct (decide _); [lia|].
  assert (0 ≤ (bit_length z + 7) `div` 8) by (apply Z.div_pos; lia). lia.
Qed.

Lemma len_int_to_big_endian z : len (int_to_big_endian z) = byte_length z.
Proof.
  unfold len, int_to_big_endian. rewrite length_to_bytes.
  pose proof (byte_length_pos z). unfold byte_length in *. lia.
Qed.

Lemma byte_length_bits z :
  0 < z → 8 * (byte_length z - 1) ≤ bit_length z - 1 ∧ bit_length z ≤ 8 * byte_length z.
Proof.
  intros Hz. pose proof (bit_length_pos z Hz) as Hb. unfold byte_length.
  pose proof (Z.div_mod (bit_length z + 7) 8).
  pose proof (Z.mod_pos_bound (bit_length z + 7) 8).
  destruct (decide _); lia.
Qed.

Lemma big_endian_to_int_int_to_big_endian z :
  0 ≤ z → big_endian_to_int (int_to_big_endian z) = z.
Proof.
  intros Hz. unfold int_to_big_endian.
  rewrite big_endian_to_int_to_bytes by done.
  apply Z.mod_small. split; [done|].
  fold (byte_length z). pose proof (byte_length_pos z) as Hp.
  rewrite Z2Nat.id by lia.
  destruct (decide (z = 0)) as [->|Hne]; [by apply Z.pow_pos_nonneg; lia|].
  destruct (byte_length_bits z) as [_ Hb]; [lia|].
  eapply Z.lt_le_trans; [by apply bit_length_bound|].
  replace 256 with (2 ^ 8) by done. rewrite <- Z.pow_mul_r by lia.
  apply Z.pow_le_mono_r; lia.
Qed.

End bytes_facts.

Section big_endian_facts.

Lemma foldl_big_endian acc bs :
  foldl (λ acc b, acc * 256 + ord b) acc bs
  = acc * 256 ^ len bs + big_endian_to_int bs.
Proof.
  unfold big_endian_to_int. revert acc.
  induction bs as [|b bs IH]; intros acc.
  - simpl. unfold len. simpl. lia.
  - cbn [foldl]. rewrite IH, (IH (0 * 256 + ord b)), len_cons.
    rewrite Z.pow_add_r by (pose proof (len_nonneg bs); lia). lia.
Qed.

Lemma big_endian_to_int_cons b bs :
  big_endian_to_int (b :: bs) = ord b * 256 ^ len bs + big_endian_to_int bs.
Proof.
  unfold big_endian_to_int at 1. cbn [foldl]. rewrite foldl_big_endian. lia.
Qed.

Lemma big_endian_to_int_range bs : 0 ≤ big_endian_to_int bs < 256 ^ len bs.
Proof.
  induction bs as [|b bs IH].
  - unfold len. simpl. unfold big_endian_to_int. simpl. lia.
  - rewrite big_endian_to_int_cons, len_cons.
    pose proof (ord_range b). pose proof (len_nonneg bs).
    rewrite Z.pow_add_r by lia. nia.
Qed.

Lemma byte_length_lower z : 0 < z → 256 ^ (byte_length z - 1) ≤ z.
Proof.
  intros Hz. destruct (byte_length_bits z Hz) as [Hlo _].
  pose proof (byte_length_pos z). pose proof (bit_length_lower z Hz).
  replace 256 with (2 ^ 8) by done. rewrite <- Z.pow_mul_r by lia.
  etrans; [|done]. apply Z.pow_le_mono_r; lia.
Qed.

Lemma byte_length_upper z n : 0 ≤ n → 0 < z < 256 ^ n → byte_length z ≤ n.
Proof.
  intros Hn Hz. pose proof (byte_length_lower z) as Hlo.
  pose proof (byte_length_pos z).
  destruct (decide (byte_length z ≤ n)) as [|Hgt]; [done|].
  assert (256 ^ n ≤ 256 ^ (byte_length z - 1)) by (apply Z.pow_le_mono_r; lia).
  lia.
Qed.

Lemma int_to_big_endian_head z :
  0 < z → ∃ b bs, int_to_big_endian z = b :: bs ∧ ord b ≠ 0.
Proof.
  intros Hz.
  pose proof (len_int_to_big_endian z) as Hlen.
  pose proof (byte_length_pos z) as Hpos.
  pose proof (big_endian_to_int_int_to_big_endian z) as Hval.
  destruct (int_to_big_endian z) as [|b bs]; [unfold len in Hlen; simpl in Hlen; lia|].
  exists b, bs. split; [done|]. intros Hb.
  rewrite big_endian_to_int_cons, Hb in Hval.
  rewrite len_cons in Hlen.
  pose proof (big_endian_to_int_range bs).
  pose proof (byte_length_lower z Hz) as Hlo.
  replace (byte_length z - 1) with (len bs) in Hlo by lia. lia.
Qed.

End big_endian_facts.


(** ** The RLP codec *)

Section rlp_facts.

(** Induction on items, with the hypothesis for every item of a list. *)
Lemma item_nested_ind (P : item → Prop) :
  (∀ bs, P (Str bs)) →
  (∀ items, Forall P items → P (Lst items)) →
  ∀ it, P it.
Proof.
  intros HStr HLst. fix IH 1. intros [bs|items]; [apply HStr|].
  apply HLst.
  refine ((fix go (l : list item) : Forall P l :=
             match l with
             | [] => Forall_nil_2 P
             | x :: l' => Forall_cons_2 P x l' (IH x) (go l')
             end) items).
Qed.

Lemma byte_length_long l : 56 ≤ l < LONG_LENGTH → 1 ≤ byte_length l ≤ 8.
Proof.
  intros Hl. pose proof (byte_length_pos l).
  split; [lia|]. apply byte_length_upper; [lia|]. unfold LONG_LENGTH in Hl. lia.
Qed.

Lemma starts_with_zero_int_to_big_endian z rest :
  0 < z → starts_with_zero (int_to_big_endian z ++ rest) = false.
Proof.
  intros Hz. destruct (int_to_big_endian_head z Hz) as (b & bs & -> & Hb).
  simpl. by apply bool_decide_eq_false.
Qed.

Lemma take_len_app {A} (l k : list A) : take (Z.to_nat (len l)) (l ++ k) = l.
Proof. unfold len. rewrite Nat2Z.id. by rewrite take_app_length. Qed.

Lemma drop_len_app {A} (l k : list A) : drop (Z.to_nat (len l)) (l ++ k) = k.
Proof. unfold len. rewrite Nat2Z.id. by rewrite drop_app_length. Qed.

(** Reading back the prefix of a string that is not a single byte
    below 128. *)
Lemma consume_length_prefix_bytes payload prefix rest :
  is_single_byte payload = false →
  length_prefix (len payload) 128 = Some prefix →
  consume_length_prefix (prefix ++ payload ++ rest)
  = Some (bytes_, len payload, payload ++ rest).
Proof.
  intros Hsingle Hprefix. unfold length_prefix in Hprefix.
  pose proof (len_nonneg payload) as Hlen.
  destruct (decide (len payload < 56)) as [Hshort|Hlong].
  - injection Hprefix as <-. cbn [app consume_length_prefix].
    rewrite ord_chr by lia.
    rewrite decide_False by lia. rewrite decide_True by lia.
    replace (128 + len payload - 128) with (len payload) by lia.
    destruct payload as [|b payload]; cbn [app].
    + destruct rest; [|rewrite decide_False by (unfold len; simpl; lia)]; done.
    + rewrite decide_False; [done|]. intros [Hone Hb].
      rewrite len_cons in Hone. destruct payload; [|unfold len in Hone; simpl in Hone; lia].
      simpl in Hsingle. apply bool_decide_eq_false in Hsingle. lia.
  - destruct (decide (len payload < LONG_LENGTH)) as [Hlimit|]; [|done].
    injection Hprefix as <-. cbn [app consume_length_prefix].
    rewrite len_int_to_big_endian.
    destruct (byte_length_long (len payload)) as [Hlo Hhi]; [lia|].
    rewrite ord_chr by lia.
    rewrite !decide_False by lia. rewrite decide_True by lia.
    rewrite starts_with_zero_int_to_big_endian by lia.
    replace (128 + 56 - 1 + byte_length (len payload) - 183)
      with (len (int_to_big_endian (len payload)))
      by (rewrite len_int_to_big_endian; lia).
    rewrite decide_False by (rewrite len_app; pose proof (len_nonneg (payload ++ rest)); lia).
    rewrite take_len_app, drop_len_app.
    rewrite big_endian_to_int_int_to_big_endian by lia.
    by rewrite decide_False by lia.
Qed.

(** Reading back the prefix of a list. *)
Lemma consume_length_prefix_list l prefix rest :
  0 ≤ l → len rest >= l →
  length_prefix l 192 = Some prefix →
  consume_length_prefix (prefix ++ rest) = Some (list_, l, rest).
Proof.
  intros Hl Hrest Hprefix. unfold length_prefix in Hprefix.
  destruct (decide (l < 56)) as [Hshort|Hlong].
  - injection Hprefix as <-. cbn [app consume_length_prefix].
    rewrite ord_chr by lia.
    rewrite !decide_False by lia. rewrite decide_True by lia.
    do 3 f_equal. lia.
  - destruct (decide (l < LONG_LENGTH)) as [Hlimit|]; [|done].
    injection Hprefix as <-. cbn [app consume_length_prefix].
    rewrite len_int_to_big_endian.
    destruct (byte_length_long l) as [Hlo Hhi]; [lia|].
    rewrite ord_chr by lia.
    rewrite !decide_False by lia.
    rewrite starts_with_zero_int_to_big_endian by lia.
    replace (192 + 56 - 1 + byte_length l - 192 - 56 + 1)
      with (len (int_to_big_endian l))
      by (rewrite len_int_to_big_endian; lia).
    rewrite decide_False by (rewrite len_app; pose proof (len_nonneg rest); lia).
    rewrite take_len_app, drop_len_app.
    rewrite big_endian_to_int_int_to_big_endian by lia.
    by rewrite decide_False by lia.
Qed.

Lemma length_prefix_nonempty l offset prefix :
  length_prefix l offset = Some prefix → 1 ≤ len prefix.
Proof.
  unfold length_prefix. intros Hp. repeat case_decide; simplify_eq;
    rewrite len_cons; pose proof (len_nonneg (int_to_big_endian l)); unfold len; simpl; lia.
Qed.

Lemma encode_raw_nonempty it bs : encode_raw it = Some bs → 1 ≤ len bs.
Proof.
  destruct it as [payload|items]; cbn [encode_raw].
  - destruct (is_single_byte payload) eqn:Hs.
    + intros [= <-]. destruct payload as [|? [|]]; try done. 
    + intros Hb. apply bind_Some in Hb as (prefix & Hp & [= <-]).
      apply length_prefix_nonempty in Hp. rewrite len_app.
      pose proof (len_nonneg payload). lia.
  - intros Hb. apply bind_Some in Hb as (encoded & _ & Hb). cbn zeta in Hb.
    apply bind_Some in Hb as (prefix & Hp & [= <-]).
    apply length_prefix_nonempty in Hp. rewrite len_app.
    pose proof (len_nonneg (concat encoded)). lia.
Qed.

End rlp_facts.


Section rlp_roundtrip.

(** The items of a list are read back from the concatenation of their
    encodings, given that each of them is. *)
Lemma consume_items_concat items :
  Forall (λ it, ∀ bs fuel rest,
            encode_raw it = Some bs → (2 * length bs ≤ fuel)%nat →
            consume_item fuel (bs ++ rest) = Some (it, rest)) items →
  ∀ encoded fuel,
    mapM encode_raw items = Some encoded →
    (2 * length (concat encoded) + 1 ≤ fuel)%nat →
    consume_items fuel (concat encoded) = Some items.
Proof.
  intros Hitems encoded fuel Hencoded. apply mapM_Some in Hencoded.
  revert fuel. induction Hencoded as [|it bs items encoded Hbs _ IH]; intros fuel Hfuel.
  - destruct fuel; [lia|done].
  - apply Forall_cons in Hitems as [Hit Hitems].
    destruct fuel as [|fuel]; [lia|].
    cbn [concat] in *. rewrite length_app in Hfuel.
    pose proof (encode_raw_nonempty _ _ Hbs) as Hne. unfold len in Hne.
    cbn [consume_items].
    destruct (bs ++ concat encoded) as [|b tl] eqn:Happ.
    { apply (f_equal length) in Happ. rewrite length_app in Happ. simpl in Happ. lia. }
    rewrite <- Happ. rewrite (Hit bs fuel (concat encoded)) by (done || lia).
    cbn [mbind option_bind]. rewrite IH by (done || lia). done.
Qed.

(** [consume_item] reads an encoded item back and leaves what follows. *)
Lemma consume_item_encode_raw it :
  ∀ bs fuel rest,
    encode_raw it = Some bs → (2 * length bs ≤ fuel)%nat →
    consume_item fuel (bs ++ rest) = Some (it, rest).
Proof.
  induction it as [payload|items IH] using item_nested_ind; intros bs fuel rest Hbs Hfuel.
  - pose proof (encode_raw_nonempty _ _ Hbs) as Hne. unfold len in Hne.
    destruct fuel as [|fuel]; [lia|].
    cbn [encode_raw] in Hbs. cbn [consume_item].
    destruct (is_single_byte payload) eqn:Hsingle.
    + injection Hbs as <-.
      destruct payload as [|b [|]]; try done.
      apply bool_decide_eq_true in Hsingle.
      cbn [app consume_length_prefix]. rewrite decide_True by done.
      cbn [mbind option_bind]. rewrite len_cons.
      rewrite decide_False by (pose proof (len_nonneg rest); lia). done.
    + apply bind_Some in Hbs as (prefix & Hprefix & [= <-]).
      rewrite <- app_assoc.
      rewrite (consume_length_prefix_bytes _ _ _ Hsingle Hprefix).
      cbn [mbind option_bind]. rewrite len_app.
      rewrite decide_False by (pose proof (len_nonneg rest); lia).
      by rewrite take_len_app, drop_len_app.
  - cbn [encode_raw] in Hbs.
    apply bind_Some in Hbs as (encoded & Hencoded & Hbs). cbn zeta in Hbs.
    apply bind_Some in Hbs as (prefix & Hprefix & [= <-]).
    pose proof (length_prefix_nonempty _ _ _ Hprefix) as Hne. unfold len in Hne.
    rewrite length_app in Hfuel.
    destruct fuel as [|fuel]; [lia|].
    cbn [consume_item]. rewrite <- app_assoc.
    rewrite (consume_length_prefix_list (len (concat encoded)) prefix)
      by (done || apply len_nonneg || rewrite len_app; pose proof (len_nonneg rest); lia).
    cbn [mbind option_bind]. rewrite len_app.
    rewrite decide_False by (pose proof (len_nonneg rest); lia).
    rewrite take_len_app, drop_len_app.
    rewrite (consume_items_concat items IH encoded) by (done || lia). done.
Qed.

(** Decoding undoes encoding. *)
Lemma decode_raw_encode_raw it bs :
  encode_raw it = Some bs → decode_raw bs = Some it.
Proof.
  intros Hbs. unfold decode_raw.
  rewrite <- (app_nil_r bs) at 2.
  rewrite (consume_item_encode_raw it bs) by (done || lia). done.
Qed.

Lemma prefix_length_pos l : 1 ≤ prefix_length l.
Proof.
  unfold prefix_length. pose proof (byte_length_pos l). case_decide; lia.
Qed.

Lemma length_prefix_Some l offset :
  0 ≤ l < LONG_LENGTH →
  ∃ prefix, length_prefix l offset = Some prefix ∧ len prefix = prefix_length l.
Proof.
  intros Hl. unfold length_prefix, prefix_length. case_decide.
  - eexists; split; [done|]. done.
  - rewrite decide_True by lia. eexists; split; [done|].
    rewrite len_cons, len_int_to_big_endian. done.
Qed.

Lemma encoded_length_pos it : 1 ≤ encoded_length it.
Proof.
  induction it as [payload|items IH] using item_nested_ind; cbn [encoded_length].
  - destruct (is_single_byte payload); [lia|].
    pose proof (prefix_length_pos (len payload)). pose proof (len_nonneg payload). lia.
  - set (payload := foldr _ _ _).
    assert (0 ≤ payload) by (subst payload; induction IH; cbn [foldr]; lia).
    pose proof (prefix_length_pos payload). lia.
Qed.

Lemma encoded_length_sum_nonneg items :
  0 ≤ foldr (λ it acc, encoded_length it + acc) 0 items.
Proof.
  induction items as [|it items IH]; cbn [foldr]; [lia|].
  pose proof (encoded_length_pos it). lia.
Qed.

Lemma mapM_encode_raw_Some items :
  Forall (λ it, encoded_length it < LONG_LENGTH →
                ∃ bs, encode_raw it = Some bs ∧ len bs = encoded_length it) items →
  foldr (λ it acc, encoded_length it + acc) 0 items < LONG_LENGTH →
  ∃ encoded, mapM encode_raw items = Some encoded
             ∧ len (concat encoded) = foldr (λ it acc, encoded_length it + acc) 0 items.
Proof.
  induction 1 as [|it items Hit _ IH]; cbn [foldr]; intros Hlimit.
  - by exists [].
  - pose proof (encoded_length_pos it). pose proof (encoded_length_sum_nonneg items).
    destruct Hit as (bs & Hbs & Hlen); [lia|].
    destruct IH as (encoded & Hencoded & Hlens); [lia|].
    exists (bs :: encoded). cbn [mapM]. rewrite Hbs. cbn [mbind option_bind].
    rewrite Hencoded. cbn [mbind option_bind]. split; [done|].
    cbn [concat]. rewrite len_app. lia.
Qed.

(** An item whose encoding stays below the length limit is encoded, in
    as many bytes as [encoded_length] says. *)
Lemma encode_raw_Some it :
  encoded_length it < LONG_LENGTH →
  ∃ bs, encode_raw it = Some bs ∧ len bs = encoded_length it.
Proof.
  induction it as [payload|items IH] using item_nested_ind;
    cbn [encoded_length encode_raw]; intros Hlimit.
  - destruct (is_single_byte payload) eqn:Hsingle.
    + exists payload. split; [done|]. by destruct payload as [|? [|]].
    + pose proof (prefix_length_pos (len payload)). pose proof (len_nonneg payload).
      destruct (length_prefix_Some (len payload) 128) as (prefix & -> & Hlen); [lia|].
      eexists; split; [done|]. rewrite len_app. lia.
  - set (payload := foldr _ _ _) in *.
    pose proof (prefix_length_pos payload).
    destruct (mapM_encode_raw_Some items IH) as (encoded & -> & Hlen); [lia|].
    fold payload in Hlen.
    cbn [mbind option_bind]. cbn zeta. rewrite Hlen.
    assert (0 ≤ payload) by (rewrite <- Hlen; apply len_nonneg).
    destruct (length_prefix_Some payload 192) as (prefix & -> & Hplen); [lia|].
    eexists; split; [done|]. rewrite len_app. lia.
Qed.

(** The fuel of [decode_raw] is enough for every input: what
    [consume_item] reads with any fuel it reads with twice the number
    of bytes it consumes. *)
Lemma consume_length_prefix_rest rlp t l rest :
  consume_length_prefix rlp = Some (t, l, rest) →
  (t = bytes_ ∧ l = 1 ∧ rest = rlp ∧ (0 < length rlp)%nat)
  ∨ (length rest < length rlp)%nat.
Proof.
  unfold consume_length_prefix. destruct rlp as [|b rest0]; [done|].
  intros Hprefix.
  repeat (case_decide || case_match); simplify_eq; try done;
    first [left; split_and!; (done || (simpl; lia))
          |right; simpl; rewrite ?length_drop; lia].
Qed.

Lemma consume_fuel_enough fuel :
  (∀ rlp it rest,
     consume_item fuel rlp = Some (it, rest) →
     (length rest < length rlp)%nat
     ∧ ∀ fuel', (2 * (length rlp - length rest) ≤ fuel')%nat →
                consume_item fuel' rlp = Some (it, rest))
  ∧ (∀ payload items,
       consume_items fuel payload = Some items →
       ∀ fuel', (2 * length payload + 1 ≤ fuel')%nat →
                consume_items fuel' payload = Some items).
Proof.
  induction fuel as [|fuel [IHitem IHitems]]; [done|]. split.
  - intros rlp it rest. cbn [consume_item].
    destruct (consume_length_prefix rlp) as [[[t l] rest0]|] eqn:Hprefix; [|done].
    cbn [mbind option_bind]. case_decide as Hlen; [done|].
    pose proof (consume_length_prefix_rest _ _ _ _ Hprefix) as Hrest0.
    assert (length (drop (Z.to_nat l) rest0) < length rlp)%nat as Hshorter.
    { rewrite length_drop. destruct Hrest0 as [(_ & -> & -> & ?)|?]; lia. }
    destruct t.
    + intros [= <- <-]. split; [done|]. intros [|fuel'] Hfuel'; [lia|].
      cbn [consume_item]. rewrite Hprefix. cbn [mbind option_bind].
      by rewrite decide_False.
    + destruct (consume_items fuel (take (Z.to_nat l) rest0)) as [items|] eqn:Hitems;
        [|done].
      intros [= <- <-]. split; [done|]. intros [|fuel'] Hfuel'; [lia|].
      cbn [consume_item]. rewrite Hprefix. cbn [mbind option_bind].
      rewrite decide_False by done.
      destruct Hrest0 as [(? & _)|Hrest0]; [done|].
      rewrite (IHitems _ _ Hitems); [done|].
      rewrite length_drop in Hfuel'. rewrite length_take. lia.
  - intros payload items. cbn [consume_items].
    destruct payload as [|b payload]; [by intros [= <-] [|fuel'] ?; [lia|]|].
    destruct (consume_item fuel (b :: payload)) as [[it rest]|] eqn:Hit; [|done].
    cbn [mbind option_bind].
    destruct (consume_items fuel rest) as [items'|] eqn:Hitems; [|done].
    intros [= <-] [|fuel'] Hfuel'; [lia|].
    destruct (IHitem _ _ _ Hit) as [Hshorter Hitem].
    cbn [consume_items]. rewrite Hitem by lia. cbn [mbind option_bind].
    rewrite (IHitems _ _ Hitems) by lia. done.
Qed.

Lemma decode_raw_fuel fuel rlp it :
  consume_item fuel rlp = Some (it, []) → decode_raw rlp = Some it.
Proof.
  intros Hit. unfold decode_raw.
  destruct (consume_fuel_enough fuel) as [Hitem _].
  destruct (Hitem _ _ _ Hit) as [_ ->]; [done|simpl; lia].
Qed.

End rlp_roundtrip.


(** ** The sedes *)

Section sedes_facts.
Context `{Objects}.

(** Induction on sedes, with the hypothesis for every element of a
    [List]. *)
Lemma sedes_nested_ind (P : sedes.t → Prop) :
  P sedes.big_endian_int → P sedes.binary → P sedes.boolean →
  P sedes.HashOrNumber → P sedes.BlockHeader → P sedes.BaseTransactionFields →
  P sedes.Receipt → P sedes.BlockBody →
  (∀ elements, Forall P elements → P (sedes.List elements)) →
  (∀ element_sedes, P element_sedes → P (sedes.CountableList element_sedes)) →
  ∀ s, P s.
Proof.
  intros ???????? HList HCountable. fix IH 1. intros [| | | | | | | |elements|element_sedes];
    try assumption.
  - apply HList.
    refine ((fix go (l : list sedes.t) : Forall P l :=
               match l with
               | [] => Forall_nil_2 P
               | x :: l' => Forall_cons_2 P x l' (IH x) (go l')
               end) elements).
  - apply HCountable, IH.
Qed.

Lemma big_endian_int_roundtrip n :
  0 ≤ n →
  ∃ serial, sedes.big_endian_int_serialize (VInt n) = Some serial
            ∧ sedes.big_endian_int_deserialize serial = Some (VInt n).
Proof.
  intros Hn. unfold sedes.big_endian_int_serialize.
  rewrite decide_False by lia. case_decide as Hz.
  - subst n. eexists; split; [done|]. done.
  - eexists; split; [done|]. unfold sedes.big_endian_int_deserialize.
    destruct (int_to_big_endian_head n) as (b & bs & Hbs & Hb); [lia|].
    pose proof (big_endian_to_int_int_to_big_endian n Hn) as Hval.
    rewrite Hbs in *. cbn [starts_with_zero].
    rewrite bool_decide_eq_false_2 by done. by rewrite Hval.
Qed.

(** The serial form of a non-negative integer: its big-endian form, the
    empty string for 0. *)
Lemma big_endian_int_serialize_length n serial :
  sedes.big_endian_int_serialize (VInt n) = Some serial →
  ∃ bs, serial = Str bs ∧ (n = 0 ∧ bs = [] ∨ 0 < n ∧ bs = int_to_big_endian n).
Proof.
  unfold sedes.big_endian_int_serialize. repeat case_decide; intros [= <-];
    eexists; split; try done; [left|right]; split; done || lia.
Qed.

(** Every conforming value has a serial form, from which it is read
    back. *)
Lemma deserialize_serialize sedes :
  ∀ obj, conforms sedes obj = true →
         ∃ serial, sedes.serialize sedes obj = Some serial
                   ∧ sedes.deserialize sedes serial = Some obj.
Proof.
  induction sedes as [| | | | | | | |elements IH|element_sedes IH] using sedes_nested_ind;
    intros obj Hobj.
  - destruct obj; try done. apply bool_decide_eq_true in Hobj.
    by apply big_endian_int_roundtrip.
  - destruct obj; try done. by eexists.
  - destruct obj as [|[]| | | | | | |]; try done; eexists; (split; [done|]); done.
  - destruct obj; try done; cbn [conforms] in Hobj; apply bool_decide_eq_true in Hobj.
    + destruct Hobj as [Hn Hlen].
      destruct (big_endian_int_roundtrip n Hn) as (serial & Hs & Hd).
      exists serial. split; [done|].
      destruct (big_endian_int_serialize_length _ _ Hs) as (bs & -> & Hbs).
      cbn [sedes.deserialize sedes.HashOrNumber_deserialize].
      rewrite decide_False; [done|].
      destruct Hbs as [[_ ->]|[_ ->]]; [done|done].
    + eexists; split; [done|]. cbn. by rewrite decide_True.
  - destruct obj; try done. eexists; split; [done|]. cbn.
    by rewrite deserialize_serialize_obj.
  - destruct obj; try done. eexists; split; [done|]. cbn.
    by rewrite deserialize_serialize_obj.
  - destruct obj; try done. eexists; split; [done|]. cbn.
    by rewrite deserialize_serialize_obj.
  - destruct obj; try done. eexists; split; [done|]. cbn.
    by rewrite deserialize_serialize_obj.
  - destruct obj as [| | | | | | | |vs]; try done.
    cbn [conforms sedes.serialize sedes.deserialize] in *.
    set (conf := fix go (elements : list sedes.t) (vs : list value) : bool := _) in Hobj.
    set (ser := fix go (elements : list sedes.t) (vs : list value) : option (list item) := _).
    set (de := fix go (elements : list sedes.t) (items : list item) : option (list value) := _).
    assert (length elements = length vs
            ∧ ∃ items, ser elements vs = Some items ∧ length items = length elements
                       ∧ de elements items = Some vs) as (Hlen & items & Hser & Hlen' & Hde).
    { subst conf ser de. revert vs Hobj.
      induction IH as [|s elements Hs _ IHelements]; intros [|v vs] Hobj; try done.
      - split; [done|]. by exists [].
      - apply andb_prop in Hobj as [Hv Hvs].
        destruct (Hs v Hv) as (i & Hi & Hdi).
        destruct (IHelements vs Hvs) as (Hlen & items & Hitems & Hlen' & Hditems).
        split; [simpl; lia|]. exists (i :: items).
        rewrite Hi. cbn [mbind option_bind]. rewrite Hitems. cbn [mbind option_bind].
        split; [done|]. split; [simpl; lia|].
        rewrite Hdi. cbn [mbind option_bind]. by rewrite Hditems. }
    exists (Lst items). split.
    + rewrite decide_False by lia. by rewrite Hser.
    + rewrite decide_False by lia. by rewrite Hde.
  - destruct obj as [| | | | | | | |vs]; try done.
    cbn [conforms sedes.serialize sedes.deserialize] in *.
    assert (∃ items, mapM (sedes.serialize element_sedes) vs = Some items
                     ∧ mapM (sedes.deserialize element_sedes) items = Some vs)
      as (items & -> & Hde).
    { induction vs as [|v vs IHvs]; [by exists []|].
      cbn [forallb] in Hobj. apply andb_prop in Hobj as [Hv Hvs].
      destruct (IH v Hv) as (i & Hi & Hdi).
      destruct (IHvs Hvs) as (items & Hitems & Hditems).
      exists (i :: items). cbn [mapM]. rewrite Hi. cbn [mbind option_bind]. rewrite Hitems.
      cbn [mbind option_bind]. split; [done|].
      rewrite Hdi. cbn [mbind option_bind]. by rewrite Hditems. }
    exists (Lst items). split; [done|]. by rewrite Hde.
Qed.

End sedes_facts.


(** ** Commands *)

Section command_facts.
Context `{Objects}.

(** [rlp.decode] undoes [rlp.encode] on conforming values within the
    length limit. *)
Lemma rlp_decode_encode sedes obj :
  conforms sedes obj = true →
  wire_length sedes obj < LONG_LENGTH →
  ∃ bs, rlp.encode obj sedes = Some bs ∧ rlp.decode bs sedes = Some obj
        ∧ len bs = wire_length sedes obj.
Proof.
  intros Hobj Hlimit. unfold wire_length, rlp.encode, rlp.decode in *.
  destruct (deserialize_serialize sedes obj Hobj) as (serial & Hs & Hd).
  rewrite Hs in *. cbn [from_option mbind option_bind] in *.
  destruct (encode_raw_Some serial Hlimit) as (bs & Hbs & Hlen).
  exists bs. rewrite Hbs, (decode_raw_encode_raw _ _ Hbs). done.
Qed.

(** Building a [dict] from the field names and the values that were
    looked up under them. *)
Lemma lookup_foldl_insert (names : list string) (d m : gmap string value) vs k :
  mapM (λ name, d !! name) names = Some vs →
  foldl (λ d '(field_name, value), <[field_name:=value]> d) m (zip names vs) !! k
  = if decide (k ∈ names) then d !! k else m !! k.
Proof.
  intros Hvs. apply mapM_Some in Hvs. revert m.
  induction Hvs as [|name v names vs Hv _ IH]; intros m; cbn [zip zip_with foldl].
  - rewrite decide_False by apply not_elem_of_nil. done.
  - rewrite IH. destruct (decide (k ∈ names)) as [Hin|Hnin].
    + rewrite decide_True by (by apply elem_of_cons; right). done.
    + destruct (decide (k = name)) as [->|Hne].
      * rewrite decide_True by (by apply elem_of_cons; left). by rewrite lookup_insert_eq.
      * rewrite decide_False by (intros [?|?]%elem_of_cons; done).
        by rewrite lookup_insert_ne.
Qed.

Lemma foldl_insert_dict (names : list string) (d : gmap string value) vs :
  dom d = list_to_set names →
  mapM (λ name, d !! name) names = Some vs →
  foldl (λ d '(field_name, value), <[field_name:=value]> d) ∅ (zip names vs) = d.
Proof.
  intros Hdom Hvs. apply map_eq. intros k.
  rewrite (lookup_foldl_insert names d ∅ vs k Hvs).
  case_decide as Hk; [done|]. rewrite lookup_empty. symmetry.
  apply not_elem_of_dom. rewrite Hdom. by rewrite elem_of_list_to_set.
Qed.

(** The values of the fields of a well-formed [dict], in the order of
    the structure. *)
Lemma well_formed_fields (fields : list (string * sedes.t)) (d : gmap string value) :
  forallb (λ '(name, sedes),
             match d !! name with
             | Some v => conforms sedes v
             | None => false
             end) fields = true →
  ∃ vs, mapM (λ name, d !! name) fields.*1 = Some vs
        ∧ conforms (sedes.List fields.*2) (VSeq vs) = true.
Proof.
  induction fields as [|[name sedes] fields IH]; cbn [forallb]; intros Hfields.
  - by exists [].
  - apply andb_prop in Hfields as [Hv Hfields].
    destruct (d !! name) as [v|] eqn:Hname; [|done].
    destruct (IH Hfields) as (vs & Hvs & Hconf).
    exists (v :: vs). cbn [fmap list_fmap mapM fst snd]. rewrite Hname.
    cbn [mbind option_bind]. rewrite Hvs. cbn [mbind option_bind]. split; [done|].
    cbn [conforms] in *. by rewrite Hv.
Qed.

(** Decoding the payload of a command undoes encoding it, on
    well-formed messages within the length limit. *)
Lemma decode_payload_encode_payload (self : Command.t) data :
  well_formed (cls self) data = true →
  payload_length (cls self) data < LONG_LENGTH →
  ∃ body, Command.encode_payload self data = Some body
          ∧ Command.decode_payload self body = Some data
          ∧ len body = payload_length (cls self) data.
Proof.
  unfold well_formed, payload_length, Command.encode_payload, Command.decode_payload.
  destruct (structure (cls self)) as [fields|sedes].
  - destruct data as [d|l]; [|done]. intros Hwf Hlimit.
    apply andb_prop in Hwf as [Hdom Hfields]. apply bool_decide_eq_true in Hdom.
    destruct (well_formed_fields fields d Hfields) as (vs & Hvs & Hconf).
    rewrite Hvs in *. cbn [from_option] in Hlimit.
    destruct (rlp_decode_encode _ _ Hconf Hlimit) as (body & Henc & Hdec & Hlen).
    exists body. rewrite decide_True by done. cbn [mbind option_bind from_option].
    rewrite Henc, Hdec. cbn [mbind option_bind].
    by rewrite (foldl_insert_dict _ d vs Hdom Hvs).
  - destruct sedes; try done. destruct data as [d|l]; [done|]. intros Hwf Hlimit.
    destruct (rlp_decode_encode _ _ Hwf Hlimit) as (body & Henc & Hdec & Hlen).
    exists body. by rewrite Henc, Hdec.
Qed.

(** The header of a message carries the absolute command ID. *)
Lemma header_cmd_id_encode (self : Command.t) data header body :
  Command.encode self data = Some (header, body) →
  Command.header_cmd_id header = Some (Command.cmd_id self)
  ∧ Command.encode_payload self data = Some body.
Proof.
  unfold Command.encode, Command.header_cmd_id. intros Hmsg.
  apply bind_Some in Hmsg as (payload & Hpayload & Hmsg).
  apply bind_Some in Hmsg as (hdr & Hheader & [= <- <-]).
  split; [|done]. unfold rlp.encode in Hheader. unfold rlp.decode.
  apply bind_Some in Hheader as (serial & Hserial & Hraw).
  rewrite (decode_raw_encode_raw _ _ Hraw). cbn [mbind option_bind].
  cbn [sedes.serialize] in Hserial.
  assert (0 ≤ Command.cmd_id self) as Hid.
  { unfold sedes.big_endian_int_serialize in Hserial. case_decide; [done|lia]. }
  destruct (big_endian_int_roundtrip _ Hid) as (serial' & Hs & Hd).
  rewrite Hserial in Hs. injection Hs as <-.
  cbn [sedes.deserialize]. by rewrite Hd.
Qed.

(** The encoded length of a byte string of fewer than 56 bytes. *)
Lemma encoded_length_short bs : len bs < 56 → encoded_length (Str bs) ≤ 1 + len bs.
Proof.
  intros Hlen. cbn [encoded_length]. pose proof (len_nonneg bs).
  destruct (is_single_byte bs); [lia|].
  unfold prefix_length. rewrite decide_True by done. lia.
Qed.

Lemma wire_length_int n k :
  0 ≤ n < 256 ^ k → 0 ≤ k < 56 →
  wire_length sedes.big_endian_int (VInt n) ≤ 1 + k.
Proof.
  intros Hn Hk. unfold wire_length. cbn [sedes.serialize].
  unfold sedes.big_endian_int_serialize. rewrite decide_False by lia.
  case_decide as Hz; cbn [from_option].
  - etrans; [apply encoded_length_short|]; unfold len; simpl; lia.
  - assert (byte_length n ≤ k) by (apply byte_length_upper; lia).
    etrans; [apply encoded_length_short|]; rewrite len_int_to_big_endian; lia.
Qed.

(** A message is encoded when its payload is and the absolute command
    ID is a non-negative number of fewer than 256**8 bytes. *)
Lemma encode_Some (self : Command.t) data body :
  Command.encode_payload self data = Some body →
  0 ≤ Command.cmd_id self < 2 ^ 64 →
  ∃ header, Command.encode self data = Some (header, body).
Proof.
  intros Hbody Hid. unfold Command.encode. rewrite Hbody. cbn [mbind option_bind].
  destruct (rlp_decode_encode sedes.big_endian_int (VInt (Command.cmd_id self)))
    as (header & -> & _).
  - cbn. apply bool_decide_eq_true. lia.
  - pose proof (wire_length_int (Command.cmd_id self) 8 ltac:(lia) ltac:(lia)).
    unfold LONG_LENGTH. lia.
  - by exists header.
Qed.

End command_facts.


(** ** The send operations *)

Section protocol_facts.
Context `{Objects}.

(** Encoding a message and handing it to the transport. *)
Lemma send_encoded (self : Protocol.t) (cmd : Command.t) data sent :
  ('(header, body) ← codec (Command.encode cmd data); send self header body) sent
  = match Command.encode cmd data with
    | Some (header, body) => (Returns (), sent ++ [(header, body)])
    | None => (Raises SchemaMismatch, sent)
    end.
Proof.
  unfold mbind, action_bind, codec. by destruct (Command.encode cmd data) as [[header body]|].
Qed.

(** The payload of [GetBlockHeaders]: the four fields in the order of
    the structure. *)
Lemma encode_payload_GetBlockHeaders offset start max_headers skip reverse :
  Command.encode_payload (GetBlockHeaders offset)
    (get_block_headers_data start max_headers skip reverse)
  = rlp.encode
      (VSeq [BlockIdentifier_value start; VInt max_headers; VInt skip; VBool reverse])
      (sedes.List [sedes.HashOrNumber; sedes.big_endian_int; sedes.big_endian_int;
                   sedes.boolean]).
Proof.
  unfold Command.encode_payload, get_block_headers_data.
  cbn [structure cls GetBlockHeaders].
  rewrite decide_True by (vm_compute; reflexivity). reflexivity.
Qed.

(** The payload of [Status]: the five fields in the order of the
    structure. *)
Lemma encode_payload_Status offset self head_info :
  Command.encode_payload (Status offset) (handshake_resp self head_info)
  = rlp.encode
      (VSeq [VInt ETHProtocol.version; VInt (network_id (peer self));
             VInt (total_difficulty head_info); VBytes (block_hash head_info);
             VBytes (genesis_hash head_info)])
      (sedes.List [sedes.big_endian_int; sedes.big_endian_int; sedes.big_endian_int;
                   sedes.binary; sedes.binary]).
Proof.
  unfold Command.encode_payload, handshake_resp.
  cbn [structure cls Status].
  rewrite decide_True by (vm_compute; reflexivity). reflexivity.
Qed.

Lemma send_get_block_headers_checked self start max_headers skip reverse sent :
  max_headers ≤ MAX_HEADERS_FETCH →
  ETHProtocol.send_get_block_headers self start max_headers skip reverse sent
  = match Command.encode (GetBlockHeaders (cmd_id_offset self))
            (get_block_headers_data start max_headers skip reverse) with
    | Some (header, body) => (Returns (), sent ++ [(header, body)])
    | None => (Raises SchemaMismatch, sent)
    end.
Proof.
  intros Hmax. unfold ETHProtocol.send_get_block_headers.
  rewrite decide_False by lia. apply send_encoded.
Qed.

Lemma send_get_block_headers_exceeded self start max_headers skip reverse sent :
  max_headers > MAX_HEADERS_FETCH →
  ETHProtocol.send_get_block_headers self start max_headers skip reverse sent
  = (Raises CeilingExceeded, sent).
Proof.
  intros Hmax. unfold ETHProtocol.send_get_block_headers.
  by rewrite decide_True by lia.
Qed.

(** Which requests for block headers are well formed. *)
Lemma well_formed_get_block_headers start max_headers skip reverse :
  well_formed GetBlockHeaders (get_block_headers_data start max_headers skip reverse) = true
  ↔ conforms sedes.HashOrNumber (BlockIdentifier_value start) = true
    ∧ 0 ≤ max_headers ∧ 0 ≤ skip.
Proof.
  unfold well_formed, get_block_headers_data. cbn [structure GetBlockHeaders].
  rewrite bool_decide_eq_true_2 by (vm_compute; reflexivity).
  cbn [andb forallb].
  replace (({[ "block_number_or_hash" := BlockIdentifier_value start;
               "max_headers" := VInt max_headers; "skip" := VInt skip;
               "reverse" := VBool reverse ]} : gmap string value) !! "block_number_or_hash")
    with (Some (BlockIdentifier_value start)) by reflexivity.
  replace (({[ "block_number_or_hash" := BlockIdentifier_value start;
               "max_headers" := VInt max_headers; "skip" := VInt skip;
               "reverse" := VBool reverse ]} : gmap string value) !! "max_headers")
    with (Some (VInt max_headers)) by reflexivity.
  replace (({[ "block_number_or_hash" := BlockIdentifier_value start;
               "max_headers" := VInt max_headers; "skip" := VInt skip;
               "reverse" := VBool reverse ]} : gmap string value) !! "skip")
    with (Some (VInt skip)) by reflexivity.
  replace (({[ "block_number_or_hash" := BlockIdentifier_value start;
               "max_headers" := VInt max_headers; "skip" := VInt skip;
               "reverse" := VBool reverse ]} : gmap string value) !! "reverse")
    with (Some (VBool reverse)) by reflexivity.
  cbn [conforms]. rewrite !andb_true_iff, !bool_decide_eq_true. tauto.
Qed.

Lemma payload_length_GetBlockHeaders start max_headers skip reverse :
  payload_length GetBlockHeaders (get_block_headers_data start max_headers skip reverse)
  = wire_length
      (sedes.List [sedes.HashOrNumber; sedes.big_endian_int; sedes.big_endian_int;
                   sedes.boolean])
      (VSeq [BlockIdentifier_value start; VInt max_headers; VInt skip; VBool reverse]).
Proof. reflexivity. Qed.

Lemma payload_length_Status self head_info :
  payload_length Status (handshake_resp self head_info)
  = wire_length
      (sedes.List [sedes.big_endian_int; sedes.big_endian_int; sedes.big_endian_int;
                   sedes.binary; sedes.binary])
      (VSeq [VInt ETHProtocol.version; VInt (network_id (peer self));
             VInt (total_difficulty head_info); VBytes (block_hash head_info);
             VBytes (genesis_hash head_info)]).
Proof. reflexivity. Qed.

(** A value that has a serial form within the length limit is encoded. *)
Lemma rlp_encode_Some sedes obj :
  is_Some (sedes.serialize sedes obj) →
  wire_length sedes obj < LONG_LENGTH →
  is_Some (rlp.encode obj sedes).
Proof.
  intros [serial Hserial] Hlimit. unfold wire_length, rlp.encode in *.
  rewrite Hserial in *. cbn [from_option mbind option_bind] in *.
  destruct (encode_raw_Some serial Hlimit) as (bs & -> & _). done.
Qed.

(** The codec takes no negative integer. *)
Lemma big_endian_int_serialize_negative n :
  n < 0 → sedes.big_endian_int_serialize (VInt n) = None.
Proof. intros Hn. unfold sedes.big_endian_int_serialize. by rewrite decide_True. Qed.

Lemma big_endian_int_serialize_Some n :
  0 ≤ n → is_Some (sedes.big_endian_int_serialize (VInt n)).
Proof.
  intros Hn. destruct (big_endian_int_roundtrip n Hn) as (serial & -> & _). done.
Qed.

(** A well-formed message within the length limit, from a command whose
    absolute ID is a non-negative number below [2 ^ 64], is encoded to a
    header that carries the ID and a body that decodes to the message. *)
Lemma encode_well_formed (self : Command.t) data :
  well_formed (cls self) data = true →
  payload_length (cls self) data < LONG_LENGTH →
  0 ≤ Command.cmd_id self < 2 ^ 64 →
  ∃ header body,
    Command.encode self data = Some (header, body)
    ∧ Command.header_cmd_id header = Some (Command.cmd_id self)
    ∧ Command.decode_payload self body = Some data.
Proof.
  intros Hwf Hlimit Hid.
  destruct (decode_payload_encode_payload self data Hwf Hlimit) as (body & Henc & Hdec & _).
  destruct (encode_Some self data body Henc Hid) as (header & Hmsg).
  exists header, body. split; [done|]. split; [|done].
  by destruct (header_cmd_id_encode _ _ _ _ Hmsg).
Qed.

End protocol_facts.


Section handshake_facts.
Context `{Objects}.

(** Which handshakes are well formed. *)
Lemma well_formed_handshake self head_info :
  well_formed Status (handshake_resp self head_info) = true
  ↔ 0 ≤ network_id (peer self) ∧ 0 ≤ total_difficulty head_info.
Proof.
  unfold well_formed, handshake_resp. cbn [structure Status].
  rewrite bool_decide_eq_true_2 by (vm_compute; reflexivity).
  cbn [andb forallb].
  set (d := ({[ "protocol_version" := _; "network_id" := _; "td" := _; "best_hash" := _;
                "genesis_hash" := _ ]} : gmap string value)).
  replace (d !! "protocol_version") with (Some (VInt ETHProtocol.version)) by reflexivity.
  replace (d !! "network_id") with (Some (VInt (network_id (peer self)))) by reflexivity.
  replace (d !! "td") with (Some (VInt (total_difficulty head_info))) by reflexivity.
  replace (d !! "best_hash") with (Some (VBytes (block_hash head_info))) by reflexivity.
  replace (d !! "genesis_hash") with (Some (VBytes (genesis_hash head_info))) by reflexivity.
  cbn [conforms]. rewrite !andb_true_iff, !bool_decide_eq_true.
  unfold ETHProtocol.version. intuition lia.
Qed.

Lemma send_handshake_encoded self head_info sent :
  ETHProtocol.send_handshake self head_info sent
  = match Command.encode (Status (cmd_id_offset self)) (handshake_resp self head_info) with
    | Some (header, body) => (Returns (), sent ++ [(header, body)])
    | None => (Raises SchemaMismatch, sent)
    end.
Proof. apply send_encoded. Qed.

End handshake_facts.

(** ** The declared shapes *)

Section declared_shape_facts.
Context `{Objects}.

(** The numbers whose big-endian form has 32 bytes. *)
Lemma byte_length_32 n : 0 ≤ n → byte_length n = 32 ↔ 2 ^ 248 ≤ n < 2 ^ 256.
Proof.
  intros Hn. split.
  - intros Hlen.
    assert (0 < n) as Hpos.
    { destruct (decide (n = 0)) as [->|]; [|lia]. by vm_compute in Hlen. }
    pose proof (byte_length_lower n Hpos) as Hlo. rewrite Hlen in Hlo.
    pose proof (byte_length_bits n Hpos) as [_ Hbits]. rewrite Hlen in Hbits.
    pose proof (bit_length_bound n Hn) as Hup.
    assert (2 ^ bit_length n ≤ 2 ^ 256) by (apply Z.pow_le_mono_r; lia).
    change (256 ^ (32 - 1)) with (2 ^ 248) in Hlo. lia.
  - intros [Hlo Hup].
    assert (0 < n) as Hpos by lia.
    assert (byte_length n ≤ 32) by (apply byte_length_upper; [lia|]; split; [done|];
      by change (256 ^ 32) with (2 ^ 256)).
    destruct (decide (byte_length n ≤ 31)) as [Hle|]; [|lia].
    pose proof (byte_length_bits n Hpos) as [_ Hbits].
    pose proof (bit_length_bound n ltac:(lia)) as Hbound.
    assert (2 ^ bit_length n ≤ 2 ^ 248) by (apply Z.pow_le_mono_r; lia).
    lia.
Qed.

(** A conforming value is of the shape of the sedes. *)
Lemma conforms_of_shape sedes obj :
  conforms sedes obj = true → of_shape sedes obj = true.
Proof.
  revert obj.
  induction sedes as [| | | | | | | |elements IH|element_sedes IH] using sedes_nested_ind;
    intros obj; destruct obj as [n|bs|b| | | | | |vs]; try done.
  - cbn [conforms of_shape]. intros Hn. apply bool_decide_eq_true in Hn as [Hn _].
    by apply bool_decide_eq_true.
  - cbn [conforms of_shape]. revert vs.
    induction IH as [|s elements Hs _ IHelements]; intros [|v vs]; try done.
    intros Hconf. apply andb_prop in Hconf as [Hv Hvs].
    by rewrite (Hs _ Hv), (IHelements _ Hvs).
  - cbn [conforms of_shape]. induction vs as [|v vs IHvs]; [done|].
    cbn [forallb]. intros Hconf. apply andb_prop in Hconf as [Hv Hvs].
    by rewrite (IH _ Hv), (IHvs Hvs).
Qed.

(** Where [HashOrNumber] does not occur, the values of the shape are
    the conforming ones. *)
Lemma of_shape_hash_free sedes obj :
  hash_free sedes = true → of_shape sedes obj = conforms sedes obj.
Proof.
  revert obj.
  induction sedes as [| | | | | | | |elements IH|element_sedes IH] using sedes_nested_ind;
    intros obj Hfree; destruct obj as [n|bs|b| | | | | |vs]; try done.
  - cbn [conforms of_shape]. cbn [hash_free] in Hfree. revert vs.
    induction IH as [|s elements Hs _ IHelements]; intros [|v vs]; try done.
    cbn [forallb] in Hfree. apply andb_prop in Hfree as [Hfree_s Hfree].
    by rewrite (Hs v Hfree_s), (IHelements Hfree vs).
  - cbn [conforms of_shape]. cbn [hash_free] in Hfree.
    induction vs as [|v vs IHvs]; [done|].
    cbn [forallb]. by rewrite (IH v Hfree), IHvs.
Qed.

(** A block identifier of the shape of [HashOrNumber] conforms to it,
    but for the block numbers from [2 ^ 248] to [2 ^ 256 - 1]. *)
Lemma conforms_HashOrNumber obj :
  conforms sedes.HashOrNumber obj = true
  ↔ of_shape sedes.HashOrNumber obj = true
    ∧ ∀ n, obj = VInt n → n < 2 ^ 248 ∨ 2 ^ 256 ≤ n.
Proof.
  destruct obj as [n|bs|b| | | | | |vs]; cbn [conforms of_shape];
    try (split; [done|by intros [? _]]).
  rewrite !bool_decide_eq_true, len_int_to_big_endian. split.
  - intros [Hn Hlen]. split; [done|]. intros ? [= <-].
    destruct (decide (2 ^ 248 ≤ n < 2 ^ 256)) as [Hrange|]; [|lia].
    by apply byte_length_32 in Hrange.
  - intros [Hn Hrange]. split; [done|]. intros Hlen.
    apply byte_length_32 in Hlen; [|done]. specialize (Hrange n eq_refl). lia.
Qed.

(** A block number from [2 ^ 248] to [2 ^ 256 - 1] has a serial form
    of 32 bytes, which is read back as a hash. *)
Lemma HashOrNumber_number_read_as_hash n :
  2 ^ 248 ≤ n < 2 ^ 256 →
  sedes.serialize sedes.HashOrNumber (VInt n) = Some (Str (int_to_big_endian n))
  ∧ sedes.deserialize sedes.HashOrNumber (Str (int_to_big_endian n))
    = Some (VBytes (int_to_big_endian n)).
Proof.
  intros Hn. cbn [sedes.serialize sedes.deserialize sedes.HashOrNumber_serialize
                  sedes.HashOrNumber_deserialize].
  unfold sedes.big_endian_int_serialize.
  rewrite (decide_False (P:=n < 0)), (decide_False (P:=n = 0)) by lia. split; [done|].
  rewrite decide_True; [done|].
  rewrite len_int_to_big_endian. apply byte_length_32; lia.
Qed.

(** Where [HashOrNumber] does not occur in the structure, the messages
    of the declared shape are the well-formed ones. *)
Lemma of_declared_shape_hash_free (c : Command.class) data :
  match structure c with
  | FieldList fields => forallb hash_free fields.*2 = true
  | Sedes sedes => hash_free sedes = true
  end →
  of_declared_shape c data = well_formed c data.
Proof.
  unfold of_declared_shape, well_formed.
  destruct (structure c) as [fields|sedes]; intros Hfree.
  - destruct data as [d|l]; [|done]. f_equal.
    induction fields as [|[name s] fields IH]; [done|].
    cbn [fmap list_fmap snd forallb] in *. apply andb_prop in Hfree as [Hfree_s Hfree].
    rewrite (IH Hfree). by destruct (d !! name) as [v|]; [rewrite of_shape_hash_free|].
  - destruct data as [d|l]; [done|]. destruct sedes; try done.
    by apply of_shape_hash_free.
Qed.

(** A request for block headers is well formed when it is of the
    declared shape and its block number, if it has one, is not one of
    those from [2 ^ 248] to [2 ^ 256 - 1]. *)
Lemma well_formed_GetBlockHeaders data :
  well_formed GetBlockHeaders data = true
  ↔ of_declared_shape GetBlockHeaders data = true
    ∧ ∀ d n, data = Dict d → d !! "block_number_or_hash" = Some (VInt n) →
             n < 2 ^ 248 ∨ 2 ^ 256 ≤ n.
Proof.
  unfold well_formed, of_declared_shape. cbn [structure GetBlockHeaders].
  destruct data as [d|l]; [|split; [done|by intros [? _]]].
  cbn [forallb]. rewrite !andb_true_iff.
  destruct (d !! "block_number_or_hash") as [v|] eqn:Hv.
  - rewrite conforms_HashOrNumber. split.
    + intros (Hdom & [Hshape Hrange] & Hrest). split; [done|].
      intros ? n [= <-]. rewrite Hv. intros [= ->]. by apply Hrange.
    + intros [(Hdom & Hshape & Hrest) Hrange]. split; [done|]. split; [|exact Hrest].
      split; [done|]. intros n ->. by apply (Hrange d n).
  - split; [by intros (_ & ? & _)|by intros [(_ & ? & _) _]].
Qed.

(** A message of the declared shape of a command of the protocol is
    well formed, unless it has a block number from [2 ^ 248] to
    [2 ^ 256 - 1]. *)
Lemma well_formed_of_declared_shape (c : Command.class) data :
  c ∈ ETHProtocol._commands →
  of_declared_shape c data = true →
  (∀ d n, data = Dict d → d !! "block_number_or_hash" = Some (VInt n) →
          n < 2 ^ 248 ∨ 2 ^ 256 ≤ n) →
  well_formed c data = true.
Proof.
  unfold ETHProtocol._commands. intros Hc Hshape Hrange.
  repeat (apply elem_of_cons in Hc as [->|Hc]);
    try (by apply elem_of_nil in Hc);
    try (by rewrite <- of_declared_shape_hash_free).
  by apply well_formed_GetBlockHeaders.
Qed.

End declared_shape_facts.

(** * The claims *)

Section claims.
Context `{Objects}.

(** C1. [send_get_block_headers] fails with [CeilingExceeded] exactly
    when [max_headers] exceeds 192. For every [max_headers] above 192
    the call raises and nothing is handed to the transport. For
    [max_headers = 192] (with a block number or hash and a [skip] that
    conform to the structure) the call returns and hands one
    (header, body) pair to the transport: the header carries the
    absolute ID of [GetBlockHeaders] and the body decodes to the
    request. *)
Theorem send_get_block_headers_ceiling self start max_headers skip reverse sent :
  let r := ETHProtocol.send_get_block_headers self start max_headers skip reverse sent in
  (r.1 = Raises CeilingExceeded ↔ max_headers > 192)
  ∧ (max_headers > 192 → r = (Raises CeilingExceeded, sent))
  ∧ (max_headers = 192 →
     conforms sedes.HashOrNumber (BlockIdentifier_value start) = true →
     0 ≤ skip →
     payload_length GetBlockHeaders (get_block_headers_data start 192 skip reverse)
       < LONG_LENGTH →
     0 ≤ cmd_id_offset self < 2 ^ 63 →
     ∃ header body,
       r = (Returns (), sent ++ [(header, body)])
       ∧ Command.header_cmd_id header = Some (cmd_id_offset self + 3)
       ∧ Command.decode_payload (GetBlockHeaders (cmd_id_offset self)) body
         = Some (get_block_headers_data start 192 skip reverse)).
Proof.
  cbn zeta. split; [|split].
  - split.
    + intros Hr. destruct (decide (max_headers > 192)) as [|Hle]; [done|].
      rewrite send_get_block_headers_checked in Hr by (unfold MAX_HEADERS_FETCH; lia).
      by destruct (Command.encode _ _) as [[header body]|].
    + intros Hgt. by rewrite send_get_block_headers_exceeded.
  - intros Hgt. by apply send_get_block_headers_exceeded.
  - intros -> Hstart Hskip Hlimit Hoffset.
    rewrite send_get_block_headers_checked by done.
    destruct (encode_well_formed (GetBlockHeaders (cmd_id_offset self))
                (get_block_headers_data start 192 skip reverse))
      as (header & body & -> & Hheader & Hbody).
    + apply well_formed_get_block_headers. split; [done|lia].
    + done.
    + unfold Command.cmd_id. cbn. lia.
    + by exists header, body.
Qed.

(** C5. For every head, [send_handshake] builds a [Status] message of
    exactly five fields: in the order of the structure, the protocol's
    own version (63), the network identifier of the connection, and the
    total difficulty, block hash and genesis hash of the head; this
    message it encodes and sends. For every head with a non-negative
    total difficulty, on a connection with a non-negative network
    identifier, one message goes to the transport: its header carries
    the absolute ID of [Status], and its body decodes to these five
    values. *)
Theorem send_handshake_status self head_info sent :
  ETHProtocol.version = 63
  ∧ handshake_resp self head_info
    = Dict {[ "protocol_version" := VInt 63;
              "network_id" := VInt (network_id (peer self));
              "td" := VInt (total_difficulty head_info);
              "best_hash" := VBytes (block_hash head_info);
              "genesis_hash" := VBytes (genesis_hash head_info) ]}
  ∧ Command.encode_payload (Status (cmd_id_offset self)) (handshake_resp self head_info)
    = rlp.encode
        (VSeq [VInt 63; VInt (network_id (peer self)); VInt (total_difficulty head_info);
               VBytes (block_hash head_info); VBytes (genesis_hash head_info)])
        (sedes.List [sedes.big_endian_int; sedes.big_endian_int; sedes.big_endian_int;
                     sedes.binary; sedes.binary])
  ∧ ETHProtocol.send_handshake self head_info sent
    = match Command.encode (Status (cmd_id_offset self)) (handshake_resp self head_info) with
      | Some (header, body) => (Returns (), sent ++ [(header, body)])
      | None => (Raises SchemaMismatch, sent)
      end
  ∧ (0 ≤ network_id (peer self) →
     0 ≤ total_difficulty head_info →
     payload_length Status (handshake_resp self head_info) < LONG_LENGTH →
     0 ≤ cmd_id_offset self < 2 ^ 63 →
     ∃ header body,
       ETHProtocol.send_handshake self head_info sent
       = (Returns (), sent ++ [(header, body)])
       ∧ Command.header_cmd_id header = Some (cmd_id_offset self + 0)
       ∧ rlp.decode body
           (sedes.List [sedes.big_endian_int; sedes.big_endian_int; sedes.big_endian_int;
                        sedes.binary; sedes.binary])
         = Some (VSeq [VInt 63; VInt (network_id (peer self));
                       VInt (total_difficulty head_info); VBytes (block_hash head_info);
                       VBytes (genesis_hash head_info)])
       ∧ Command.decode_payload (Status (cmd_id_offset self)) body
         = Some (handshake_resp self head_info)).
Proof.
  split; [done|]. split; [done|]. split; [apply encode_payload_Status|].
  split; [apply send_handshake_encoded|].
  intros Hnet Htd Hlimit Hoffset. rewrite send_handshake_encoded.
  destruct (encode_well_formed (Status (cmd_id_offset self)) (handshake_resp self head_info))
    as (header & body & Hmsg & Hheader & Hbody).
  - by apply well_formed_handshake.
  - done.
  - unfold Command.cmd_id. cbn. lia.
  - rewrite Hmsg. exists header, body. split; [done|]. split; [done|]. split; [|done].
    apply header_cmd_id_encode in Hmsg as [_ Hpayload].
    rewrite encode_payload_Status in Hpayload.
    rewrite payload_length_Status in Hlimit.
    match type of Hlimit with wire_length ?s ?v < _ =>
      assert (conforms s v = true) as Hconf
        by (cbn [conforms];
            rewrite !bool_decide_eq_true_2 by (done || unfold ETHProtocol.version; lia);
            done)
    end.
    destruct (rlp_decode_encode _ _ Hconf Hlimit) as (body' & Henc & Hdec & _).
    rewrite Hpayload in Henc. by injection Henc as <-.
Qed.

(** The codec refuses a request for block headers with a negative
    [max_headers] or [skip]. *)
Lemma encode_get_block_headers_negative offset start max_headers skip reverse :
  max_headers < 0 ∨ skip < 0 →
  Command.encode (GetBlockHeaders offset)
    (get_block_headers_data start max_headers skip reverse) = None.
Proof.
  intros Hneg. unfold Command.encode. rewrite encode_payload_GetBlockHeaders.
  unfold rlp.encode. cbn [sedes.serialize]. rewrite decide_False by (simpl; lia).
  destruct (sedes.HashOrNumber_serialize (BlockIdentifier_value start)); [|done].
  cbn [mbind option_bind].
  destruct Hneg as [Hmax|Hskip].
  - by rewrite (big_endian_int_serialize_negative max_headers).
  - destruct (sedes.big_endian_int_serialize (VInt max_headers)); [|done].
    cbn [mbind option_bind]. by rewrite (big_endian_int_serialize_negative skip).
Qed.

(** The codec takes a request for block headers whose numbers are not
    negative, within the length limit. *)
Lemma encode_get_block_headers_Some offset start max_headers skip reverse :
  match start with BlockNumber n => 0 ≤ n | Hash32 _ => True end →
  0 ≤ max_headers → 0 ≤ skip →
  payload_length GetBlockHeaders (get_block_headers_data start max_headers skip reverse)
    < LONG_LENGTH →
  0 ≤ offset < 2 ^ 63 →
  is_Some (Command.encode (GetBlockHeaders offset)
             (get_block_headers_data start max_headers skip reverse)).
Proof.
  intros Hstart Hmax Hskip Hlimit Hoffset.
  rewrite payload_length_GetBlockHeaders in Hlimit.
  assert (is_Some (Command.encode_payload (GetBlockHeaders offset)
                     (get_block_headers_data start max_headers skip reverse)))
    as [body Hbody].
  { rewrite encode_payload_GetBlockHeaders. apply rlp_encode_Some; [|done].
    cbn [sedes.serialize]. rewrite decide_False by (simpl; lia).
    assert (is_Some (sedes.HashOrNumber_serialize (BlockIdentifier_value start)))
      as [i1 ->].
    { destruct start as [n|h]; cbn; [by apply big_endian_int_serialize_Some|done]. }
    destruct (big_endian_int_serialize_Some max_headers Hmax) as [i2 ->].
    destruct (big_endian_int_serialize_Some skip Hskip) as [i3 ->].
    by destruct reverse. }
  destruct (encode_Some (GetBlockHeaders offset) _ body Hbody) as [header ->]; [|done].
  unfold Command.cmd_id. cbn. lia.
Qed.

(** C10 (as amended). Below the ceiling [send_get_block_headers] does no
    validation of its own: for every [max_headers] of at most 192 it
    does not fail with [CeilingExceeded], and what it does is what the
    codec does with the request. A request whose [max_headers], [skip]
    and block number are not negative is encoded and sent, for 0 as for
    192 and for either value of [reverse]; a negative [max_headers] or
    [skip] is refused by the codec, and nothing is sent. *)
Theorem send_get_block_headers_below_ceiling self start max_headers skip reverse sent :
  max_headers ≤ 192 →
  let r := ETHProtocol.send_get_block_headers self start max_headers skip reverse sent in
  let msg := Command.encode (GetBlockHeaders (cmd_id_offset self))
               (get_block_headers_data start max_headers skip reverse) in
  r.1 ≠ Raises CeilingExceeded
  ∧ r = match msg with
        | Some (header, body) => (Returns (), sent ++ [(header, body)])
        | None => (Raises SchemaMismatch, sent)
        end
  ∧ (match start with BlockNumber n => 0 ≤ n | Hash32 _ => True end →
     0 ≤ max_headers → 0 ≤ skip →
     payload_length GetBlockHeaders (get_block_headers_data start max_headers skip reverse)
       < LONG_LENGTH →
     0 ≤ cmd_id_offset self < 2 ^ 63 →
     ∃ header body, msg = Some (header, body) ∧ r = (Returns (), sent ++ [(header, body)]))
  ∧ (max_headers < 0 ∨ skip < 0 → r = (Raises SchemaMismatch, sent)).
Proof.
  intros Hmax. cbn zeta.
  rewrite send_get_block_headers_checked by done.
  split; [|split; [|split]].
  - by destruct (Command.encode _ _) as [[header body]|].
  - done.
  - intros Hstart Hmax0 Hskip Hlimit Hoffset.
    destruct (encode_get_block_headers_Some (cmd_id_offset self) start max_headers skip
                reverse Hstart Hmax0 Hskip Hlimit Hoffset) as [[header body] ->].
    by exists header, body.
  - intros Hneg. by rewrite encode_get_block_headers_negative.
Qed.

(** A list of byte strings conforms to [CountableList(binary)],
    whatever its length. *)
Lemma conforms_hashes (hashes : list bytes) :
  conforms (sedes.CountableList sedes.binary) (VSeq (VBytes <$> hashes)) = true.
Proof. cbn [conforms]. by induction hashes. Qed.

(** The requests that carry a list of hashes: the message is encoded
    without any check of the length of the list. *)
Lemma send_hashes_unchecked (cls : Command.class) (self : Protocol.t) hashes sent :
  structure cls = Sedes (sedes.CountableList sedes.binary) →
  let r := ('(header, body) ←
              codec (Command.encode (cls (cmd_id_offset self)) (Seq (VBytes <$> hashes)));
            send self header body) sent in
  r.1 ≠ Raises CeilingExceeded
  ∧ (wire_length (sedes.CountableList sedes.binary) (VSeq (VBytes <$> hashes)) < LONG_LENGTH →
     0 ≤ cmd_id_offset self + _cmd_id cls < 2 ^ 64 →
     ∃ header body,
       r = (Returns (), sent ++ [(header, body)])
       ∧ Command.header_cmd_id header = Some (cmd_id_offset self + _cmd_id cls)
       ∧ Command.decode_payload (cls (cmd_id_offset self)) body
         = Some (Seq (VBytes <$> hashes))).
Proof.
  intros Hstructure. cbn zeta. rewrite send_encoded. split.
  - by destruct (Command.encode _ _) as [[header body]|].
  - intros Hlimit Hid.
    destruct (encode_well_formed (cls (cmd_id_offset self)) (Seq (VBytes <$> hashes)))
      as (header & body & -> & Hheader & Hbody).
    + unfold well_formed. cbn [Command.cls]. rewrite Hstructure. apply conforms_hashes.
    + unfold payload_length. cbn [Command.cls]. by rewrite Hstructure.
    + done.
    + by exists header, body.
Qed.

(** C7. [send_get_block_bodies], [send_get_receipts] and
    [send_get_node_data] check no ceiling: for every list of hashes, of
    any length, none of them fails with [CeilingExceeded], and each
    encodes the list as it is and sends it (the codec takes every list
    whose encoding has fewer than [256 ** 8] bytes). *)
Theorem send_get_hashes_no_ceiling self (hashes : list bytes) sent :
  let bodies := ETHProtocol.send_get_block_bodies self hashes sent in
  let receipts := ETHProtocol.send_get_receipts self hashes sent in
  let nodes := ETHProtocol.send_get_node_data self hashes sent in
  (bodies.1 ≠ Raises CeilingExceeded
   ∧ receipts.1 ≠ Raises CeilingExceeded
   ∧ nodes.1 ≠ Raises CeilingExceeded)
  ∧ (wire_length (sedes.CountableList sedes.binary) (VSeq (VBytes <$> hashes)) < LONG_LENGTH →
     0 ≤ cmd_id_offset self < 2 ^ 63 →
     ∃ body header_bodies header_receipts header_nodes,
       bodies = (Returns (), sent ++ [(header_bodies, body)])
       ∧ receipts = (Returns (), sent ++ [(header_receipts, body)])
       ∧ nodes = (Returns (), sent ++ [(header_nodes, body)])
       ∧ rlp.decode body (sedes.CountableList sedes.binary)
         = Some (VSeq (VBytes <$> hashes))).
Proof.
  cbn zeta.
  destruct (send_hashes_unchecked GetBlockBodies self hashes sent eq_refl) as [Hb1 Hb2].
  destruct (send_hashes_unchecked GetReceipts self hashes sent eq_refl) as [Hr1 Hr2].
  destruct (send_hashes_unchecked GetNodeData self hashes sent eq_refl) as [Hn1 Hn2].
  split; [done|]. intros Hlimit Hoffset.
  destruct Hb2 as (hb & body & Hb & _ & _); [done|cbn; lia|].
  destruct Hr2 as (hr & body' & Hr & _ & _); [done|cbn; lia|].
  destruct Hn2 as (hn & body'' & Hn & _ & _); [done|cbn; lia|].
  destruct (rlp_decode_encode _ _ (conforms_hashes hashes) Hlimit)
    as (payload & Henc & Hdec & _).
  assert (∀ (cls : Command.class) header b,
            structure cls = Sedes (sedes.CountableList sedes.binary) →
            ('(header, body) ←
               codec (Command.encode (cls (cmd_id_offset self)) (Seq (VBytes <$> hashes)));
             send self header body) sent = (Returns (), sent ++ [(header, b)]) →
            b = payload) as Hsame.
  { intros cls header b Hstructure. rewrite send_encoded.
    destruct (Command.encode (cls (cmd_id_offset self)) (Seq (VBytes <$> hashes)))
      as [[h b']|] eqn:Hmsg; [|done].
    intros [= Hsent]. apply app_inv_head in Hsent. injection Hsent as -> ->.
    apply header_cmd_id_encode in Hmsg as [_ Hpayload].
    unfold Command.encode_payload in Hpayload. cbn [Command.cls] in Hpayload.
    rewrite Hstructure, Henc in Hpayload. by injection Hpayload. }
  pose proof (Hsame GetBlockBodies hb body eq_refl Hb) as ->.
  pose proof (Hsame GetReceipts hr body' eq_refl Hr) as ->.
  pose proof (Hsame GetNodeData hn body'' eq_refl Hn) as ->.
  by exists payload, hb, hr, hn.
Qed.

(** C6. The header of every message of a registered command carries
    the base offset plus the identifier of the command, an identifier
    from 0 to 16; so does the header of the message that a send
    operation hands to the transport, for the command of the
    operation. *)
Theorem header_cmd_id_is_offset_plus_identifier :
  (∀ (cls : Command.class) offset data header body,
     cls ∈ ETHProtocol._commands →
     Command.encode (cls offset) data = Some (header, body) →
     0 ≤ _cmd_id cls ≤ 16
     ∧ Command.header_cmd_id header = Some (offset + _cmd_id cls))
  ∧ (∀ self op sent sent',
       perform self op sent = (Returns (), sent') →
       ∃ header body,
         sent' = sent ++ [(header, body)]
         ∧ command_of op ∈ ETHProtocol._commands
         ∧ Command.header_cmd_id header
           = Some (cmd_id_offset self + _cmd_id (command_of op))).
Proof.
  split.
  - intros cls offset data header body Hcls Hmsg.
    apply header_cmd_id_encode in Hmsg as [Hheader _]. split; [|done].
    unfold ETHProtocol._commands in Hcls.
    repeat (apply elem_of_cons in Hcls as [->|Hcls]; [cbn; lia|]).
    by apply elem_of_nil in Hcls.
  - intros self op sent sent' Hop.
    assert (∀ (cls : Command.class) data,
              ('(header, body) ← codec (Command.encode (cls (cmd_id_offset self)) data);
               send self header body) sent = (Returns (), sent') →
              ∃ header body,
                sent' = sent ++ [(header, body)]
                ∧ Command.header_cmd_id header = Some (cmd_id_offset self + _cmd_id cls))
      as Hsend.
    { intros cls data. rewrite send_encoded.
      destruct (Command.encode _ _) as [[header body]|] eqn:Hmsg; [|done].
      intros [= <-]. exists header, body. split; [done|].
      by apply header_cmd_id_encode in Hmsg as [Hheader _]. }
    destruct op; cbn [perform command_of] in *;
      try (apply Hsend in Hop as (header & body & -> & Hheader);
           exists header, body; split; [done|]; split; [|done];
           unfold ETHProtocol._commands; repeat constructor).
    unfold ETHProtocol.send_get_block_headers in Hop. case_decide; [done|].
    apply Hsend in Hop as (header & body & -> & Hheader).
    exists header, body. split; [done|]. split; [|done].
    unfold ETHProtocol._commands. repeat constructor.
Qed.

(** A decoded list of block headers holds block headers only. *)
Lemma mapM_deserialize_BlockHeader items vs :
  mapM (sedes.deserialize sedes.BlockHeader) items = Some vs →
  ∃ headers : list BlockHeader, vs = VHeader <$> headers.
Proof.
  intros Hvs. apply mapM_Some in Hvs.
  induction Hvs as [|it v items vs Hv _ [headers ->]]; [by exists []|].
  cbn [sedes.deserialize] in Hv. apply fmap_Some in Hv as (h & _ & ->).
  by exists (h :: headers).
Qed.

(** C8. [BlockHeaders] has a typed extraction step: every payload that
    [BlockHeaders] decodes is a sequence of block headers, and
    [extract_headers] returns exactly these headers, in the same order
    (as it returns the values of every sequence it is given). *)
Theorem extract_headers_decoded offset body msg :
  Command.decode_payload (BlockHeaders offset) body = Some msg →
  ∃ headers : list BlockHeader,
    msg = Seq (VHeader <$> headers)
    ∧ extract_headers (BlockHeaders offset) msg = VHeader <$> headers
    ∧ (∀ l, extract_headers (BlockHeaders offset) (Seq l) = l).
Proof.
  unfold Command.decode_payload. cbn [structure Command.cls BlockHeaders].
  intros Hmsg. apply bind_Some in Hmsg as (data & Hdata & Hmsg).
  unfold rlp.decode in Hdata. apply bind_Some in Hdata as (serial & _ & Hdata).
  destruct serial as [|items]; [done|]. cbn [sedes.deserialize] in Hdata.
  apply fmap_Some in Hdata as (vs & Hvs & ->). injection Hmsg as <-.
  destruct (mapM_deserialize_BlockHeader _ _ Hvs) as [headers ->].
  by exists headers.
Qed.

(** The round trip of the well-formed messages: a well-formed message
    of a command (within the length limit of the codec) is encoded, and
    decoding the encoding yields the message back unchanged. *)
Theorem decode_encode (cls : Command.class) offset data :
  cls ∈ ETHProtocol._commands →
  well_formed cls data = true →
  payload_length cls data < LONG_LENGTH →
  (∃ body, Command.encode_payload (cls offset) data = Some body
           ∧ Command.decode_payload (cls offset) body = Some data)
  ∧ (∀ header body, Command.encode (cls offset) data = Some (header, body) →
                    Command.decode_payload (cls offset) body = Some data).
Proof.
  intros _ Hwf Hlimit.
  destruct (decode_payload_encode_payload (cls offset) data Hwf Hlimit)
    as (body & Henc & Hdec & _).
  split; [by exists body|].
  intros header body' Hmsg. apply header_cmd_id_encode in Hmsg as [_ Hpayload].
  rewrite Henc in Hpayload. by injection Hpayload as <-.
Qed.

(** C3. For every command of the protocol and every message of the
    shape that its structure declares, in which a block number is below
    [2 ^ 248] or at least [2 ^ 256] (and within the length limit of the
    codec), the message is encoded, and decoding the encoding yields the
    message back unchanged. *)
Theorem decode_encode_declared_shape (c : Command.class) offset data :
  c ∈ ETHProtocol._commands →
  of_declared_shape c data = true →
  (∀ d n, data = Dict d → d !! "block_number_or_hash" = Some (VInt n) →
          n < 2 ^ 248 ∨ 2 ^ 256 ≤ n) →
  payload_length c data < LONG_LENGTH →
  (∃ body, Command.encode_payload (c offset) data = Some body
           ∧ Command.decode_payload (c offset) body = Some data)
  ∧ (∀ header body, Command.encode (c offset) data = Some (header, body) →
                    Command.decode_payload (c offset) body = Some data).
Proof.
  intros Hc Hshape Hrange Hlimit. apply decode_encode; [done| |done].
  by apply well_formed_of_declared_shape.
Qed.

(** C4. The payload of [GetBlockHeaders] has exactly the four fields
    [block_number_or_hash], [max_headers], [skip] and [reverse], in this
    order: a hash or number, two unsigned integers (no negative integer
    has a serial form) and a boolean. The request (42, 10, 0, false) is
    encoded, and its body decodes to the same four values in the same
    order. *)
Theorem GetBlockHeaders_fields offset :
  structure GetBlockHeaders
  = FieldList [("block_number_or_hash", sedes.HashOrNumber);
               ("max_headers", sedes.big_endian_int);
               ("skip", sedes.big_endian_int);
               ("reverse", sedes.boolean)]
  ∧ (∀ n, n < 0 → sedes.serialize sedes.big_endian_int (VInt n) = None)
  ∧ (∀ h, conforms sedes.HashOrNumber (VBytes h) = true ↔ len h = 32)
  ∧ ∃ body,
      Command.encode_payload (GetBlockHeaders offset)
        (get_block_headers_data (BlockNumber 42) 10 0 false) = Some body
      ∧ rlp.decode body
          (sedes.List [sedes.HashOrNumber; sedes.big_endian_int; sedes.big_endian_int;
                       sedes.boolean])
        = Some (VSeq [VInt 42; VInt 10; VInt 0; VBool false])
      ∧ Command.decode_payload (GetBlockHeaders offset) body
        = Some (Dict {[ "block_number_or_hash" := VInt 42; "max_headers" := VInt 10;
                        "skip" := VInt 0; "reverse" := VBool false ]})
      ∧ (∀ header body',
           Command.encode (GetBlockHeaders offset)
             (get_block_headers_data (BlockNumber 42) 10 0 false) = Some (header, body') →
           body' = body).
Proof.
  split; [done|]. split; [apply big_endian_int_serialize_negative|].
  split; [intros h; cbn [conforms]; apply bool_decide_eq_true|].
  exists [xc4; x2a; x0a; x80; x80].
  assert (Command.encode_payload (GetBlockHeaders offset)
            (get_block_headers_data (BlockNumber 42) 10 0 false)
          = Some [xc4; x2a; x0a; x80; x80]) as Hbody by (by vm_compute).
  split; [done|]. split; [by vm_compute|]. split; [by vm_compute|].
  intros header body' Hmsg. apply header_cmd_id_encode in Hmsg as [_ Hpayload].
  rewrite Hbody in Hpayload. by injection Hpayload.
Qed.

(** Which identifiers the registry assigns. *)
Lemma assigned_identifiers i :
  (∃ cls : Command.class, cls ∈ ETHProtocol._commands ∧ _cmd_id cls = i)
  ↔ 0 ≤ i ≤ 7 ∨ 13 ≤ i ≤ 16.
Proof.
  split.
  - intros (cls & Hcls & <-). unfold ETHProtocol._commands in Hcls.
    repeat (apply elem_of_cons in Hcls as [->|Hcls]; [cbn; lia|]).
    by apply elem_of_nil in Hcls.
  - intros Hi.
    assert (i = 0 ∨ i = 1 ∨ i = 2 ∨ i = 3 ∨ i = 4 ∨ i = 5 ∨ i = 6 ∨ i = 7
            ∨ i = 13 ∨ i = 14 ∨ i = 15 ∨ i = 16) as Hcases by lia.
    unfold ETHProtocol._commands.
    destruct Hcases as [->|[->|[->|[->|[->|[->|[->|[->|[->|[->|[->| ->]]]]]]]]]]];
      [exists Status|exists NewBlockHashes|exists Transactions|exists GetBlockHeaders
      |exists BlockHeaders|exists GetBlockBodies|exists BlockBodies|exists NewBlock
      |exists GetNodeData|exists NodeData|exists GetReceipts|exists Receipts];
      (split; [repeat constructor|done]).
Qed.

(** C2 (as amended). The identifiers that the registry assigns are
    exactly 0 to 7 and 13 to 16: they are not contiguous, 8 to 12 are
    vacant. All lie below the declared [cmd_length], which is 17, one
    more than the largest identifier, and not the number of command
    kinds, which is 12. *)
Theorem identifiers_below_cmd_length :
  (∀ i, (∃ cls : Command.class, cls ∈ ETHProtocol._commands ∧ _cmd_id cls = i)
        ↔ 0 ≤ i ≤ 7 ∨ 13 ≤ i ≤ 16)
  ∧ Forall (λ cls, 0 ≤ _cmd_id cls < ETHProtocol.cmd_length) ETHProtocol._commands
  ∧ ETHProtocol.cmd_length = 17
  ∧ ETHProtocol.cmd_length = foldr Z.max 0 (_cmd_id <$> ETHProtocol._commands) + 1
  ∧ length (remove_dups (__name__ <$> ETHProtocol._commands)) = 12%nat
  ∧ length (remove_dups (_cmd_id <$> ETHProtocol._commands)) = 12%nat.
Proof.
  split; [apply assigned_identifiers|].
  split; [unfold ETHProtocol._commands, ETHProtocol.cmd_length;
          repeat (constructor; [cbn; lia|]); constructor|].
  repeat split; vm_compute; reflexivity.
Qed.

(** C9. Every command class of the registry has an identifier that is
    not negative and below [cmd_length], which is 17. No two different
    classes share an identifier. The one repeated entry is
    [BlockHeaders], at positions 4 and 5 of the registry, the same class
    with the same identifier 4; without the repetition the identifiers
    of the entries are pairwise different. *)
Theorem registry_identifiers :
  Forall (λ cls, 0 ≤ _cmd_id cls < ETHProtocol.cmd_length) ETHProtocol._commands
  ∧ ETHProtocol.cmd_length = 17
  ∧ (∀ c1 c2 : Command.class,
       c1 ∈ ETHProtocol._commands → c2 ∈ ETHProtocol._commands →
       _cmd_id c1 = _cmd_id c2 → c1 = c2)
  ∧ ETHProtocol._commands !! 4%nat = Some BlockHeaders
  ∧ ETHProtocol._commands !! 5%nat = Some BlockHeaders
  ∧ _cmd_id BlockHeaders = 4
  ∧ NoDup (_cmd_id <$> delete 5%nat ETHProtocol._commands).
Proof.
  split; [unfold ETHProtocol._commands, ETHProtocol.cmd_length;
          repeat (constructor; [cbn; lia|]); constructor|].
  split; [done|]. split.
  - intros c1 c2 Hc1 Hc2. unfold ETHProtocol._commands in *.
    repeat (apply elem_of_cons in Hc1 as [->|Hc1]);
      try (by apply elem_of_nil in Hc1);
      repeat (apply elem_of_cons in Hc2 as [->|Hc2]);
      try (by apply elem_of_nil in Hc2); cbn; intros Hid; done.
  - repeat split. apply (bool_decide_unpack _). by vm_compute.
Qed.

(** A block number whose big-endian form has 32 bytes is read back as
    a hash: such a number does not conform to [HashOrNumber]. *)
Remark HashOrNumber_number_of_32_bytes :
  conforms sedes.HashOrNumber (VInt (2 ^ 248)) = false
  ∧ ∃ serial, sedes.serialize sedes.HashOrNumber (VInt (2 ^ 248)) = Some serial
              ∧ sedes.deserialize sedes.HashOrNumber serial
                = Some (VBytes (x01 :: replicate 31 x00)).
Proof.
  split; [by vm_compute|]. eexists. split; by vm_compute.
Qed.

End claims.

(** * Further properties *)

Section more_codec_facts.
Context `{Objects}.

(** The big-endian form of the value of a byte string without a leading
    zero has as many bytes as the string. *)
Lemma byte_length_big_endian_to_int b bs :
  ord b ≠ 0 → byte_length (big_endian_to_int (b :: bs)) = len (b :: bs).
Proof.
  intros Hb. pose proof (big_endian_to_int_range (b :: bs)) as Hrange.
  rewrite big_endian_to_int_cons in *. rewrite len_cons in *.
  pose proof (ord_range b). pose proof (big_endian_to_int_range bs).
  pose proof (len_nonneg bs).
  set (n := ord b * 256 ^ len bs + big_endian_to_int bs) in *.
  assert (256 ^ len bs ≤ n) as Hlow by (subst n; nia).
  assert (byte_length n ≤ 1 + len bs) by (apply byte_length_upper; lia).
  pose proof (byte_length_pos n).
  destruct (decide (byte_length n ≤ len bs)) as [Hle|]; [|lia].
  exfalso.
  assert (0 < n) as Hn by (pose proof (Z.pow_pos_nonneg 256 (len bs)); lia).
  destruct (byte_length_bits n Hn) as [_ Hbits].
  pose proof (bit_length_bound n ltac:(lia)) as Hbound.
  assert (2 ^ bit_length n ≤ 2 ^ (8 * len bs)) by (apply Z.pow_le_mono_r; lia).
  rewrite Z.pow_mul_r in * by lia. change (2 ^ 8) with 256 in *. lia.
Qed.

(** What is read from a serial form conforms to the sedes. *)
Lemma conforms_deserialize sedes :
  ∀ serial obj, sedes.deserialize sedes serial = Some obj → conforms sedes obj = true.
Proof.
  induction sedes as [| | | | | | | |elements IH|element_sedes IH] using sedes_nested_ind;
    intros serial obj; cbn [sedes.deserialize].
  - unfold sedes.big_endian_int_deserialize. destruct serial as [bs|]; [|done].
    destruct (starts_with_zero bs); [done|]. intros [= <-]. cbn [conforms].
    apply bool_decide_eq_true.
    destruct bs; [done|]. apply big_endian_to_int_range.
  - unfold sedes.binary_deserialize. destruct serial; [|done]. by intros [= <-].
  - unfold sedes.boolean_deserialize. destruct serial as [[|b [|]]|]; try done.
    + by intros [= <-].
    + case_decide; [|done]. by intros [= <-].
  - unfold sedes.HashOrNumber_deserialize. destruct serial as [bs|]; [|done].
    case_decide as Hlen.
    + intros [= <-]. cbn [conforms]. by apply bool_decide_eq_true.
    + unfold sedes.big_endian_int_deserialize.
      destruct (starts_with_zero bs) eqn:Hzero; [done|]. intros [= <-].
      cbn [conforms]. apply bool_decide_eq_true. destruct bs as [|b bs].
      * split; [done|]. by vm_compute.
      * split; [apply big_endian_to_int_range|].
        rewrite len_int_to_big_endian, byte_length_big_endian_to_int; [done|].
        cbn in Hzero. by apply bool_decide_eq_false in Hzero.
  - intros Hobj. apply fmap_Some in Hobj as (h & _ & ->). done.
  - intros Hobj. apply fmap_Some in Hobj as (h & _ & ->). done.
  - intros Hobj. apply fmap_Some in Hobj as (h & _ & ->). done.
  - intros Hobj. apply fmap_Some in Hobj as (h & _ & ->). done.
  - destruct serial as [|items]; [done|]. case_decide as Hlen; [done|].
    intros Hobj. apply fmap_Some in Hobj as (vs & Hvs & ->). cbn [conforms].
    assert (length items = length elements) as Hlength by lia. clear Hlen.
    revert items vs Hvs Hlength.
    induction IH as [|s elements Hs _ IHelements]; intros [|it items] vs Hvs Hlength;
      try done.
    + by injection Hvs as <-.
    + apply bind_Some in Hvs as (v & Hv & Hvs).
      apply bind_Some in Hvs as (r & Hr & [= <-]).
      rewrite (Hs _ _ Hv). cbn [andb]. apply (IHelements items); [done|].
      simpl in Hlength. lia.
  - destruct serial as [|items]; [done|].
    intros Hobj. apply fmap_Some in Hobj as (vs & Hvs & ->). cbn [conforms].
    apply mapM_Some in Hvs.
    induction Hvs as [|it v items vs Hv _ IHvs]; [done|].
    cbn [forallb]. by rewrite (IH _ _ Hv).
Qed.

(** What has a serial form conforms to the sedes, when [HashOrNumber]
    does not occur in it. *)
Lemma conforms_serialize sedes :
  hash_free sedes = true →
  ∀ obj serial, sedes.serialize sedes obj = Some serial → conforms sedes obj = true.
Proof.
  induction sedes as [| | | | | | | |elements IH|element_sedes IH] using sedes_nested_ind;
    intros Hfree obj serial; cbn [sedes.serialize]; try done.
  - unfold sedes.big_endian_int_serialize. destruct obj; try done.
    case_decide; [done|]. intros _. cbn [conforms]. apply bool_decide_eq_true. lia.
  - by destruct obj.
  - by destruct obj.
  - by destruct obj.
  - by destruct obj.
  - by destruct obj.
  - by destruct obj.
  - destruct obj as [| | | | | | | |vs]; try done. case_decide as Hlen; [done|].
    intros Hobj. apply fmap_Some in Hobj as (items & Hitems & ->). cbn [conforms].
    assert (length elements = length vs) as Hlength by lia. clear Hlen.
    cbn [hash_free] in Hfree.
    revert vs items Hitems Hlength.
    induction IH as [|s elements Hs _ IHelements]; intros [|v vs] items Hitems Hlength;
      try done.
    cbn [forallb] in Hfree. apply andb_prop in Hfree as [Hfree_s Hfree].
    apply bind_Some in Hitems as (i & Hi & Hitems).
    apply bind_Some in Hitems as (r & Hr & [= <-]).
    rewrite (Hs Hfree_s _ _ Hi). cbn [andb].
    apply (IHelements Hfree vs r); [done|].
    simpl in Hlength. lia.
  - destruct obj as [| | | | | | | |vs]; try done.
    intros Hobj. apply fmap_Some in Hobj as (items & Hitems & ->). cbn [conforms].
    apply mapM_Some in Hitems.
    induction Hitems as [|v it vs items Hv _ IHvs]; [done|].
    cbn [forallb]. by rewrite (IH Hfree _ _ Hv).
Qed.

(** A conforming value that is encoded is read back from its encoding. *)
Lemma rlp_decode_encoded sedes obj bs :
  conforms sedes obj = true →
  rlp.encode obj sedes = Some bs →
  rlp.decode bs sedes = Some obj.
Proof.
  intros Hobj Hbs. unfold rlp.encode, rlp.decode in *.
  destruct (deserialize_serialize sedes obj Hobj) as (serial & Hs & Hd).
  rewrite Hs in Hbs. cbn [mbind option_bind] in Hbs.
  by rewrite (decode_raw_encode_raw _ _ Hbs).
Qed.

End more_codec_facts.

Section more_command_facts.
Context `{Objects}.

(** A well-formed message that is encoded is read back from its body. *)
Lemma decode_payload_encoded (self : Command.t) data body :
  well_formed (cls self) data = true →
  Command.encode_payload self data = Some body →
  Command.decode_payload self body = Some data.
Proof.
  unfold well_formed, Command.encode_payload, Command.decode_payload.
  destruct (structure (cls self)) as [fields|sedes].
  - destruct data as [d|l]; [|done]. intros Hwf.
    apply andb_prop in Hwf as [Hdom Hfields]. apply bool_decide_eq_true in Hdom.
    destruct (well_formed_fields fields d Hfields) as (vs & Hvs & Hconf).
    rewrite decide_True by done. rewrite Hvs. cbn [mbind option_bind]. intros Henc.
    rewrite (rlp_decode_encoded _ _ _ Hconf Henc). cbn [mbind option_bind].
    by rewrite (foldl_insert_dict _ d vs Hdom Hvs).
  - destruct sedes; try done. destruct data as [d|l]; [done|]. intros Hwf Henc.
    by rewrite (rlp_decode_encoded _ _ _ Hwf Henc).
Qed.

(** The [dict] built from field names and values. *)
Lemma lookup_foldl_insert_notin (names : list string) (vs : list value)
    (m : gmap string value) k :
  k ∉ names →
  foldl (λ d '(field_name, value), <[field_name:=value]> d) m (zip names vs) !! k
  = m !! k.
Proof.
  revert vs m. induction names as [|name names IH]; intros [|v vs] m Hk; try done.
  apply not_elem_of_cons in Hk as [Hne Hk]. cbn [zip zip_with foldl].
  rewrite IH by done. by rewrite lookup_insert_ne.
Qed.

Lemma lookup_foldl_insert_zip (names : list string) (vs : list value)
    (m : gmap string value) i name v :
  NoDup names → names !! i = Some name → vs !! i = Some v →
  foldl (λ d '(field_name, value), <[field_name:=value]> d) m (zip names vs) !! name
  = Some v.
Proof.
  intros Hnodup. revert vs m i.
  induction Hnodup as [|name0 names Hnotin _ IH]; intros [|v0 vs] m [|i] Hname Hv;
    try done; cbn [zip zip_with foldl].
  - injection Hname as ->. injection Hv as ->.
    rewrite lookup_foldl_insert_notin by done. by rewrite lookup_insert_eq.
  - by apply (IH vs _ i).
Qed.

Lemma dom_foldl_insert_zip (names : list string) (vs : list value)
    (m : gmap string value) :
  length names = length vs →
  dom (foldl (λ d '(field_name, value), <[field_name:=value]> d) m (zip names vs))
  = list_to_set names ∪ dom m.
Proof.
  revert vs m. induction names as [|name names IH]; intros [|v vs] m Hlen; try done;
    cbn [zip zip_with foldl list_to_set].
  - by rewrite (left_id_L ∅ (∪)).
  - rewrite IH by (simpl in Hlen; lia). rewrite dom_insert_L.
    by rewrite (assoc_L (∪)), (comm_L (∪) (list_to_set names)).
Qed.

(** The values of a sequence that conforms to a [List]. *)
Lemma conforms_List_lookup elements (vs : list value) :
  conforms (sedes.List elements) (VSeq vs) = true →
  length elements = length vs
  ∧ ∀ i s, elements !! i = Some s → ∃ v, vs !! i = Some v ∧ conforms s v = true.
Proof.
  cbn [conforms]. revert vs.
  induction elements as [|s0 elements IH]; intros [|v0 vs] Hconf; try done.
  apply andb_prop in Hconf as [Hv0 Hconf]. destruct (IH vs Hconf) as [Hlen Hvs].
  split; [simpl; lia|]. intros [|i] s Hs.
  - injection Hs as <-. by exists v0.
  - by apply Hvs.
Qed.

(** Whatever a command decodes is a well-formed message of it, when
    the names of its fields are pairwise different. *)
Lemma well_formed_decode_payload (self : Command.t) body msg :
  match structure (cls self) with
  | FieldList fields => NoDup fields.*1
  | Sedes _ => True
  end →
  Command.decode_payload self body = Some msg →
  well_formed (cls self) msg = true.
Proof.
  unfold well_formed, Command.decode_payload.
  destruct (structure (cls self)) as [fields|sedes].
  - intros Hnodup Hmsg. apply bind_Some in Hmsg as (data & Hdata & Hmsg).
    unfold rlp.decode in Hdata. apply bind_Some in Hdata as (serial & _ & Hdata).
    apply conforms_deserialize in Hdata.
    destruct data as [| | | | | | | |vs]; try done. injection Hmsg as <-.
    destruct (conforms_List_lookup _ _ Hdata) as [Hlen Hvs].
    rewrite length_fmap in Hlen.
    apply andb_true_intro. split.
    + apply bool_decide_eq_true. rewrite dom_foldl_insert_zip by (by rewrite length_fmap).
      rewrite dom_empty_L. by rewrite (right_id_L ∅ (∪)).
    + apply forallb_forall. intros [name s] Hin.
      apply list_elem_of_In, list_elem_of_lookup in Hin as [i Hi].
      destruct (Hvs i s) as (v & Hv & Hconf); [by rewrite list_lookup_fmap, Hi|].
      rewrite (lookup_foldl_insert_zip fields.*1 vs ∅ i name v Hnodup); [done| |done].
      by rewrite list_lookup_fmap, Hi.
  - intros _. destruct sedes; try done. intros Hmsg.
    apply bind_Some in Hmsg as (data & Hdata & Hmsg).
    unfold rlp.decode in Hdata. apply bind_Some in Hdata as (serial & _ & Hdata).
    apply conforms_deserialize in Hdata.
    destruct data as [| | | | | | | |vs]; try done. by injection Hmsg as <-.
Qed.

(** The commands of the registry name each of their fields once. *)
Lemma registry_fields_NoDup (c : Command.class) :
  c ∈ ETHProtocol._commands →
  match structure c with
  | FieldList fields => NoDup fields.*1
  | Sedes _ => True
  end.
Proof.
  unfold ETHProtocol._commands. intros Hc.
  repeat (apply elem_of_cons in Hc as [->|Hc];
          [cbn; try done; apply (bool_decide_unpack _); by vm_compute|]).
  by apply elem_of_nil in Hc.
Qed.

End more_command_facts.

Section more_message_facts.
Context `{Objects}.

(** The fields of a [dict] whose values, in the order of the structure,
    conform to the sedes of the fields. *)
Lemma well_formed_fields_of_values (fields : list (string * sedes.t))
    (d : gmap string value) vs :
  mapM (λ name, d !! name) fields.*1 = Some vs →
  conforms (sedes.List fields.*2) (VSeq vs) = true →
  forallb (λ '(name, sedes),
             match d !! name with
             | Some v => conforms sedes v
             | None => false
             end) fields = true.
Proof.
  revert vs. induction fields as [|[name s] fields IH]; intros vs Hvs Hconf; [done|].
  cbn [fmap list_fmap mapM fst snd] in Hvs.
  apply bind_Some in Hvs as (v & Hv & Hvs).
  apply bind_Some in Hvs as (vs' & Hvs' & [= <-]).
  cbn [conforms fmap list_fmap snd] in Hconf. apply andb_prop in Hconf as [Hconf_v Hconf].
  cbn [forallb]. rewrite Hv, Hconf_v. cbn [andb]. by apply (IH vs').
Qed.

(** A message of the kind of the structure that is encoded is well
    formed, when [HashOrNumber] does not occur in the structure. *)
Lemma well_formed_encode_payload (self : Command.t) data body :
  match structure (cls self) with
  | FieldList fields => forallb hash_free fields.*2 = true
  | Sedes sedes => hash_free sedes = true
  end →
  of_kind (cls self) data →
  Command.encode_payload self data = Some body →
  well_formed (cls self) data = true.
Proof.
  unfold of_kind, well_formed, Command.encode_payload.
  destruct (structure (cls self)) as [fields|sedes].
  - destruct data as [d|l]; [|done]. intros Hfree _ Hbody.
    apply bind_Some in Hbody as (vs & Hvs & Hbody).
    case_decide as Hdom; [|done].
    unfold rlp.encode in Hbody. apply bind_Some in Hbody as (serial & Hserial & _).
    apply conforms_serialize in Hserial; [|done].
    rewrite bool_decide_eq_true_2 by done. cbn [andb].
    by apply (well_formed_fields_of_values fields d vs).
  - destruct data as [d|l]; [done|]. intros Hfree _. destruct sedes; try done.
    intros Hbody. unfold rlp.encode in Hbody.
    apply bind_Some in Hbody as (serial & Hserial & _).
    by apply conforms_serialize in Hserial.
Qed.

(** The messages of the operations that send a list are well formed,
    whatever the list. *)
Lemma well_formed_list_message self op :
  sends_list op = true →
  well_formed (command_of op) (message_of self op) = true.
Proof.
  destruct op as [|l|l| |l|l|l|l|l|l]; try done; intros _;
    cbn [well_formed command_of message_of structure GetNodeData NodeData BlockHeaders
         GetBlockBodies BlockBodies GetReceipts Receipts Transactions conforms];
    induction l as [|x l IH]; try done.
  cbn [fmap list_fmap forallb]. rewrite IH. cbn [conforms].
  rewrite andb_true_r. by induction x.
Qed.

(** The body of the message of an operation other than
    [send_get_block_headers] decodes to the message. *)
Lemma decode_payload_message self op header body :
  (∀ start max_headers skip reverse,
     op ≠ get_block_headers start max_headers skip reverse) →
  Command.encode (command_of op (cmd_id_offset self)) (message_of self op)
  = Some (header, body) →
  Command.decode_payload (command_of op (cmd_id_offset self)) body
  = Some (message_of self op).
Proof.
  intros Hop Hmsg. apply header_cmd_id_encode in Hmsg as [_ Hbody].
  apply decode_payload_encoded; [|done].
  destruct op; try (by apply well_formed_list_message).
  - by apply (well_formed_encode_payload (Status (cmd_id_offset self)) _ body).
  - exfalso. by eapply Hop.
Qed.

(** The absolute command IDs of the registry. *)
Lemma registry_cmd_id_range (c : Command.class) :
  c ∈ ETHProtocol._commands → 0 ≤ _cmd_id c < ETHProtocol.cmd_length.
Proof.
  unfold ETHProtocol._commands, ETHProtocol.cmd_length. intros Hc.
  repeat (apply elem_of_cons in Hc as [->|Hc]; [cbn; lia|]).
  by apply elem_of_nil in Hc.
Qed.

Lemma registry_cmd_id_inj (c1 c2 : Command.class) :
  c1 ∈ ETHProtocol._commands → c2 ∈ ETHProtocol._commands →
  _cmd_id c1 = _cmd_id c2 → c1 = c2.
Proof.
  unfold ETHProtocol._commands. intros Hc1 Hc2.
  repeat (apply elem_of_cons in Hc1 as [->|Hc1]);
    try (by apply elem_of_nil in Hc1);
    repeat (apply elem_of_cons in Hc2 as [->|Hc2]);
    try (by apply elem_of_nil in Hc2); cbn; intros Hid; done.
Qed.

Lemma command_of_registered (op : operation) : command_of op ∈ ETHProtocol._commands.
Proof. unfold ETHProtocol._commands. destruct op; cbn [command_of]; repeat constructor. Qed.

End more_message_facts.

Section more_properties.
Context `{Objects}.

(** What an operation does: above the ceiling it raises, else it
    encodes its message with its command and sends the result. *)
Lemma perform_encoded self op sent :
  perform self op sent
  = if over_ceiling op then (Raises CeilingExceeded, sent)
    else match Command.encode (command_of op (cmd_id_offset self)) (message_of self op) with
         | Some (header, body) => (Returns (), sent ++ [(header, body)])
         | None => (Raises SchemaMismatch, sent)
         end.
Proof.
  destruct op; cbn [perform command_of message_of over_ceiling]; try apply send_encoded.
  unfold ETHProtocol.send_get_block_headers.
  case_decide; [by rewrite bool_decide_eq_true_2|].
  rewrite bool_decide_eq_false_2 by done. apply send_encoded.
Qed.

(** X1. Each of the ten send operations either returns, having handed
    exactly one (header, body) pair to the transport after the pairs
    that were there, or raises and hands nothing to it; which of the two
    it is, and which pair or error, does not depend on what was sent
    before. *)
Theorem send_operation_frame self op :
  (∃ header body, ∀ sent, perform self op sent = (Returns (), sent ++ [(header, body)]))
  ∨ (∃ e, ∀ sent, perform self op sent = (Raises e, sent)).
Proof.
  destruct (over_ceiling op) eqn:Hover.
  - right. exists CeilingExceeded. intros sent. rewrite perform_encoded.
    by rewrite Hover.
  - destruct (Command.encode (command_of op (cmd_id_offset self)) (message_of self op))
      as [[header body]|] eqn:Hmsg.
    + left. exists header, body. intros sent. rewrite perform_encoded.
      by rewrite Hover, Hmsg.
    + right. exists SchemaMismatch. intros sent. rewrite perform_encoded.
      by rewrite Hover, Hmsg.
Qed.

(** X2. Of the ten send operations only [send_get_block_headers] checks
    a ceiling: an operation fails with [CeilingExceeded] exactly when it
    is a request for more than 192 block headers. *)
Theorem ceiling_exceeded_only_for_block_headers self op sent :
  (perform self op sent).1 = Raises CeilingExceeded
  ↔ ∃ start max_headers skip reverse,
      op = get_block_headers start max_headers skip reverse ∧ max_headers > 192.
Proof.
  rewrite perform_encoded. split.
  - destruct (over_ceiling op) eqn:Hover.
    + intros _. destruct op; try done. cbn in Hover.
      apply bool_decide_eq_true in Hover. by eexists _, _, _, _.
    + by destruct (Command.encode _ _) as [[header body]|].
  - intros (start & max_headers & skip & reverse & -> & Hmax).
    cbn [over_ceiling]. by rewrite bool_decide_eq_true_2.
Qed.

(** The codec refuses a handshake with a negative network identifier
    or total difficulty. *)
Lemma encode_handshake_negative offset self head_info :
  network_id (peer self) < 0 ∨ total_difficulty head_info < 0 →
  Command.encode (Status offset) (handshake_resp self head_info) = None.
Proof.
  intros Hneg. unfold Command.encode. rewrite encode_payload_Status.
  unfold rlp.encode. cbn [sedes.serialize]. rewrite decide_False by (simpl; lia).
  destruct (sedes.big_endian_int_serialize (VInt ETHProtocol.version)); [|done].
  cbn [mbind option_bind].
  destruct Hneg as [Hnet|Htd].
  - by rewrite (big_endian_int_serialize_negative (network_id (peer self))).
  - destruct (sedes.big_endian_int_serialize (VInt (network_id (peer self)))); [|done].
    cbn [mbind option_bind].
    by rewrite (big_endian_int_serialize_negative (total_difficulty head_info)).
Qed.

(** X3. [send_handshake] checks nothing itself and never fails with
    [CeilingExceeded]; it fails, with a schema mismatch of the codec and
    with nothing sent, exactly when the network identifier of the
    connection or the total difficulty of the head is negative. *)
Theorem send_handshake_refused self head_info sent :
  payload_length Status (handshake_resp self head_info) < LONG_LENGTH →
  0 ≤ cmd_id_offset self < 2 ^ 63 →
  (ETHProtocol.send_handshake self head_info sent = (Raises SchemaMismatch, sent)
   ↔ network_id (peer self) < 0 ∨ total_difficulty head_info < 0)
  ∧ (ETHProtocol.send_handshake self head_info sent).1 ≠ Raises CeilingExceeded.
Proof.
  intros Hlimit Hoffset. rewrite send_handshake_encoded. split; [split|].
  - intros Hrefused.
    destruct (decide (network_id (peer self) < 0 ∨ total_difficulty head_info < 0))
      as [|Hnonneg]; [done|].
    destruct (encode_well_formed (Status (cmd_id_offset self))
                (handshake_resp self head_info)) as (header & body & Hmsg & _).
    + apply well_formed_handshake. lia.
    + done.
    + unfold Command.cmd_id. cbn. lia.
    + by rewrite Hmsg in Hrefused.
  - intros Hneg. by rewrite encode_handshake_negative.
  - by destruct (Command.encode _ _) as [[header body]|].
Qed.

(** X4. Whatever an operation other than [send_get_block_headers] sends,
    the receiver reads from the body exactly the message the operation
    built from its arguments: the list it was given, element for
    element, or the five fields of the handshake. *)
Theorem sent_body_decodes self op sent header body :
  (∀ start max_headers skip reverse,
     op ≠ get_block_headers start max_headers skip reverse) →
  perform self op sent = (Returns (), sent ++ [(header, body)]) →
  Command.decode_payload (command_of op (cmd_id_offset self)) body
  = Some (message_of self op).
Proof.
  intros Hop. rewrite perform_encoded.
  destruct (over_ceiling op); [done|].
  destruct (Command.encode _ _) as [[header' body']|] eqn:Hmsg; [|done].
  intros [= Hsent]. apply app_inv_head in Hsent. injection Hsent as -> ->.
  by apply (decode_payload_message self op header).
Qed.

(** X5. The operations that send a list cannot fail on their argument:
    for every list, of any length and with any elements, the call
    returns with one message sent (the codec takes every list whose
    encoding has fewer than [256 ** 8] bytes). *)
Theorem list_operations_return self op sent :
  sends_list op = true →
  payload_length (command_of op) (message_of self op) < LONG_LENGTH →
  0 ≤ cmd_id_offset self < 2 ^ 63 →
  ∃ header body, perform self op sent = (Returns (), sent ++ [(header, body)]).
Proof.
  intros Hop Hlimit Hoffset. rewrite perform_encoded.
  assert (over_ceiling op = false) as -> by (by destruct op).
  destruct (encode_well_formed (command_of op (cmd_id_offset self)) (message_of self op))
    as (header & body & -> & _).
  - by apply well_formed_list_message.
  - done.
  - pose proof (registry_cmd_id_range _ (command_of_registered op)) as Hid.
    unfold Command.cmd_id, ETHProtocol.cmd_length in *. cbn [Command.cls Command.cmd_id_offset].
    lia.
  - by exists header, body.
Qed.

(** X6. The headers that [send_block_headers] sends are the headers
    that [extract_headers] returns from the decoded body, in the same
    order, for every tuple of headers (also the empty one). *)
Theorem send_block_headers_extract_headers self (headers : list BlockHeader) sent :
  payload_length BlockHeaders (Seq (VHeader <$> headers)) < LONG_LENGTH →
  0 ≤ cmd_id_offset self < 2 ^ 63 →
  ∃ header body msg,
    ETHProtocol.send_block_headers self headers sent
    = (Returns (), sent ++ [(header, body)])
    ∧ Command.decode_payload (BlockHeaders (cmd_id_offset self)) body = Some msg
    ∧ extract_headers (BlockHeaders (cmd_id_offset self)) msg = VHeader <$> headers.
Proof.
  intros Hlimit Hoffset.
  destruct (encode_well_formed (BlockHeaders (cmd_id_offset self)) (Seq (VHeader <$> headers)))
    as (header & body & Hmsg & _ & Hbody).
  - by apply (well_formed_list_message self (block_headers headers)).
  - done.
  - unfold Command.cmd_id. cbn. lia.
  - exists header, body, (Seq (VHeader <$> headers)).
    unfold ETHProtocol.send_block_headers. rewrite send_encoded, Hmsg. done.
Qed.

(** The message of an operation that sends a list determines the
    operation among those of its command. *)
Lemma message_of_inj self1 self2 op1 op2 :
  sends_list op1 = true →
  command_of op1 = command_of op2 →
  message_of self1 op1 = message_of self2 op2 →
  op1 = op2.
Proof.
  assert (Inj (=) (=) VBytes) by (by intros ?? [=]).
  assert (Inj (=) (=) VHeader) by (by intros ?? [=]).
  assert (Inj (=) (=) VBody) by (by intros ?? [=]).
  assert (Inj (=) (=) VTransaction) by (by intros ?? [=]).
  assert (Inj (=) (=) VReceipt) by (by intros ?? [=]).
  assert (Inj (=) (=) (λ rs : list Receipt, VSeq (VReceipt <$> rs))) as Hreceipts.
  { intros rs1 rs2 [= Hrs]. revert Hrs. apply (inj (fmap VReceipt)). }
  destruct op1, op2; try done; cbn [command_of message_of];
    intros _ _ [= Hmsg]; f_equal; revert Hmsg; apply (inj (fmap _)).
Qed.

(** X7. The body of a message tells the lists apart: two calls of the
    same list operation that send the same body were given the same
    list (so that, for one, no receipts at all and one block without
    receipts are sent as different bodies). *)
Theorem sent_body_determines_list self1 self2 op1 op2 sent1 sent2 header1 header2 body :
  sends_list op1 = true →
  command_of op1 = command_of op2 →
  perform self1 op1 sent1 = (Returns (), sent1 ++ [(header1, body)]) →
  perform self2 op2 sent2 = (Returns (), sent2 ++ [(header2, body)]) →
  op1 = op2.
Proof.
  intros Hlist Hcommand Hsent1 Hsent2.
  assert (sends_list op2 = true) as Hlist2.
  { destruct op1, op2; try done; cbn [command_of] in Hcommand; discriminate. }
  assert (∀ self op sent header,
            sends_list op = true →
            perform self op sent = (Returns (), sent ++ [(header, body)]) →
            Command.decode_payload (command_of op 0) body = Some (message_of self op))
    as Hdecode.
  { intros self op sent header Hop Hsent. rewrite perform_encoded in Hsent.
    destruct (over_ceiling op); [done|].
    destruct (Command.encode _ _) as [[header' body']|] eqn:Hmsg; [|done].
    injection Hsent as Hsent. apply app_inv_head in Hsent. injection Hsent as -> ->.
    apply (decode_payload_message self op header) in Hmsg; [done|].
    intros ???? ->. done. }
  apply Hdecode in Hsent1; [|done]. apply Hdecode in Hsent2; [|done].
  rewrite Hcommand, Hsent2 in Hsent1. injection Hsent1 as Hmsg.
  by apply (message_of_inj self1 self2).
Qed.

(** X8. What a command of the registry decodes is always a well-formed
    message of it: a [dict] with exactly the fields of the structure, or
    a sequence, whose values conform to the sedes of the structure. *)
Theorem decoded_message_well_formed (c : Command.class) offset body msg :
  c ∈ ETHProtocol._commands →
  Command.decode_payload (c offset) body = Some msg →
  well_formed c msg = true.
Proof.
  intros Hc Hmsg.
  apply (well_formed_decode_payload (c offset) body msg); [|done].
  by apply registry_fields_NoDup.
Qed.

(** X9. The commands check the schema when they encode: for every
    command of the registry but [GetBlockHeaders], a [dict] (for named
    fields) or a sequence (for a list) that is encoded at all is a
    well-formed message, and its body decodes to it. *)
Theorem encoded_message_well_formed (c : Command.class) offset data body :
  c ∈ ETHProtocol._commands →
  c ≠ GetBlockHeaders →
  of_kind c data →
  Command.encode_payload (c offset) data = Some body →
  well_formed c data = true
  ∧ Command.decode_payload (c offset) body = Some data.
Proof.
  intros Hc Hne Hkind Hbody.
  assert (well_formed c data = true) as Hwf.
  { apply (well_formed_encode_payload (c offset) data body); [|done|done].
    unfold ETHProtocol._commands in Hc. cbn [Command.cls].
    repeat (apply elem_of_cons in Hc as [->|Hc]; [done|]).
    by apply elem_of_nil in Hc. }
  split; [done|]. by apply decode_payload_encoded.
Qed.

(** X10. The absolute command IDs of the protocol lie in the window of
    [cmd_length] IDs from the base offset on, one ID for one class; so
    the IDs of two protocols whose offsets are [cmd_length] or more
    apart never meet. *)
Theorem absolute_command_ids (c1 c2 : Command.class) offset :
  c1 ∈ ETHProtocol._commands →
  c2 ∈ ETHProtocol._commands →
  offset ≤ Command.cmd_id (c1 offset) < offset + ETHProtocol.cmd_length
  ∧ (Command.cmd_id (c1 offset) = Command.cmd_id (c2 offset) → c1 = c2)
  ∧ (∀ offset', offset + ETHProtocol.cmd_length ≤ offset' →
                Command.cmd_id (c1 offset) ≠ Command.cmd_id (c2 offset')).
Proof.
  intros Hc1 Hc2.
  pose proof (registry_cmd_id_range c1 Hc1). pose proof (registry_cmd_id_range c2 Hc2).
  unfold Command.cmd_id. cbn [Command.cls Command.cmd_id_offset].
  split; [lia|]. split; [|intros; lia].
  intros Hid. apply registry_cmd_id_inj; [done|done|lia].
Qed.

(** The codec refuses a request for block headers from a negative block
    number on. *)
Lemma encode_get_block_headers_negative_number offset n max_headers skip reverse :
  n < 0 →
  Command.encode (GetBlockHeaders offset)
    (get_block_headers_data (BlockNumber n) max_headers skip reverse) = None.
Proof.
  intros Hn. unfold Command.encode. rewrite encode_payload_GetBlockHeaders.
  unfold rlp.encode. cbn [sedes.serialize]. rewrite decide_False by (simpl; lia).
  cbn [BlockIdentifier_value sedes.HashOrNumber_serialize].
  by rewrite (big_endian_int_serialize_negative n).
Qed.

(** X11. Below the ceiling [send_get_block_headers] returns exactly when
    [max_headers], [skip] and the block number (when the request starts
    from a number) are not negative; in particular a negative block
    number is refused by the codec, and nothing is sent. *)
Theorem send_get_block_headers_returns_iff self start max_headers skip reverse sent :
  max_headers ≤ 192 →
  payload_length GetBlockHeaders (get_block_headers_data start max_headers skip reverse)
    < LONG_LENGTH →
  0 ≤ cmd_id_offset self < 2 ^ 63 →
  let r := ETHProtocol.send_get_block_headers self start max_headers skip reverse sent in
  let nonnegative :=
    0 ≤ max_headers ∧ 0 ≤ skip
    ∧ match start with BlockNumber n => 0 ≤ n | Hash32 _ => True end in
  ((∃ header body, r = (Returns (), sent ++ [(header, body)])) ↔ nonnegative)
  ∧ (r = (Raises SchemaMismatch, sent) ↔ ¬ nonnegative).
Proof.
  intros Hmax Hlimit Hoffset. cbn zeta.
  rewrite send_get_block_headers_checked by done.
  assert (Decision (match start with BlockNumber n => 0 ≤ n | Hash32 _ => True end))
    as Hdec by (destruct start; apply _).
  destruct (decide (0 ≤ max_headers ∧ 0 ≤ skip
                    ∧ match start with BlockNumber n => 0 ≤ n | Hash32 _ => True end))
    as [(Hmax0 & Hskip & Hstart)|Hneg].
  - destruct (encode_get_block_headers_Some (cmd_id_offset self) start max_headers skip
                reverse Hstart Hmax0 Hskip Hlimit Hoffset) as [[header body] ->].
    split; (split; [done|]); intros; [by exists header, body|tauto].
  - assert (Command.encode (GetBlockHeaders (cmd_id_offset self))
              (get_block_headers_data start max_headers skip reverse) = None) as ->.
    { destruct (decide (max_headers < 0 ∨ skip < 0)) as [Hints|Hints];
        [by apply encode_get_block_headers_negative|].
      destruct start as [n|h]; [|lia].
      apply encode_get_block_headers_negative_number. lia. }
    split; (split; [|done]); [|done]. by intros (header & body & ?).
Qed.

End more_properties.

(** * Examples *)

(** The claims at concrete inputs, over objects that are their own
    serial form. *)
#[local] Existing Instance serial_objects.

(** C1 at 193 and at 192 headers, from block 42 on. *)
Lemma send_get_block_headers_ceiling_witness :
  ETHProtocol.send_get_block_headers example_connection (BlockNumber 42) 193 0 false []
  = (Raises CeilingExceeded, [])
  ∧ ∃ header body,
      ETHProtocol.send_get_block_headers example_connection (BlockNumber 42) 192 0 false []
      = (Returns (), [(header, body)])
      ∧ Command.header_cmd_id header = Some 19
      ∧ Command.decode_payload (GetBlockHeaders 16) body
        = Some (get_block_headers_data (BlockNumber 42) 192 0 false).
Proof.
  split.
  - apply (send_get_block_headers_ceiling example_connection (BlockNumber 42) 193 0 false []).
    lia.
  - apply (send_get_block_headers_ceiling example_connection (BlockNumber 42) 192 0 false []).
    + reflexivity.
    + vm_compute. reflexivity.
    + lia.
    + vm_compute. reflexivity.
    + simpl. lia.
Defined.

(** C10 as stated fails at [max_headers = -1]: the codec refuses the
    negative integer, and nothing is sent. *)
Lemma send_get_block_headers_negative_refused :
  ETHProtocol.send_get_block_headers example_connection (BlockNumber 0) (-1) 0 false []
  = (Raises SchemaMismatch, [])
  ∧ ¬ (∀ self start max_headers skip reverse sent,
         max_headers ≤ 192 →
         ∃ header body,
           ETHProtocol.send_get_block_headers self start max_headers skip reverse sent
           = (Returns (), sent ++ [(header, body)])).
Proof.
  assert (ETHProtocol.send_get_block_headers example_connection (BlockNumber 0) (-1) 0
            false [] = (Raises SchemaMismatch, [])) as Hrefused by (by vm_compute).
  split; [done|]. intros Hsends.
  destruct (Hsends example_connection (BlockNumber 0) (-1) 0 false [])
    as (header & body & Hsent); [lia|].
  rewrite Hrefused in Hsent. discriminate.
Qed.

(** C10 as amended, at 0 headers. *)
Lemma send_get_block_headers_below_ceiling_witness :
  ∃ header body,
    Command.encode (GetBlockHeaders 16) (get_block_headers_data (BlockNumber 42) 0 7 true)
    = Some (header, body)
    ∧ ETHProtocol.send_get_block_headers example_connection (BlockNumber 42) 0 7 true []
      = (Returns (), [(header, body)]).
Proof.
  apply (send_get_block_headers_below_ceiling example_connection (BlockNumber 42) 0 7 true []).
  - lia.
  - simpl. lia.
  - lia.
  - lia.
  - vm_compute. reflexivity.
  - simpl. lia.
Defined.

(** C2 as stated fails: 13 is assigned and 8 is not, so the identifiers
    are not those from 0 up to a count, and [cmd_length] is 17 while the
    registry has 12 command kinds (in 13 entries). *)
Lemma identifiers_not_contiguous :
  (∃ cls : Command.class, cls ∈ ETHProtocol._commands ∧ _cmd_id cls = 13)
  ∧ (¬ ∃ cls : Command.class, cls ∈ ETHProtocol._commands ∧ _cmd_id cls = 8)
  ∧ ETHProtocol.cmd_length ≠ 12
  ∧ ETHProtocol.cmd_length ≠ len ETHProtocol._commands
  ∧ ¬ (∃ count,
         (∀ i, (∃ cls : Command.class, cls ∈ ETHProtocol._commands ∧ _cmd_id cls = i)
               ↔ 0 ≤ i < count)
         ∧ ETHProtocol.cmd_length = count).
Proof.
  split; [apply assigned_identifiers; lia|].
  split; [rewrite assigned_identifiers; lia|].
  split; [done|]. split; [done|].
  intros (count & Hcontiguous & Hcount).
  assert (0 ≤ 13 < count) as H13 by (apply Hcontiguous, assigned_identifiers; lia).
  assert (0 ≤ 8 < count) as H8 by lia.
  apply Hcontiguous, assigned_identifiers in H8. lia.
Qed.

(** The round trip at a list of receipts with one empty inner list. *)
Lemma decode_encode_witness :
  (∃ body, Command.encode_payload (Receipts 16) (Seq [VSeq []]) = Some body
           ∧ Command.decode_payload (Receipts 16) body = Some (Seq [VSeq []]))
  ∧ (∀ header body,
       Command.encode (Receipts 16) (Seq [VSeq []]) = Some (header, body) →
       Command.decode_payload (Receipts 16) body = Some (Seq [VSeq []])).
Proof.
  apply (decode_encode Receipts 16 (Seq [VSeq []])).
  - unfold ETHProtocol._commands. repeat constructor.
  - reflexivity.
  - vm_compute. reflexivity.
Defined.

(** C3 at the request (42, 10, 0, false) for block headers. *)
Lemma decode_encode_declared_shape_witness :
  (∃ body, Command.encode_payload (GetBlockHeaders 16)
             (get_block_headers_data (BlockNumber 42) 10 0 false) = Some body
           ∧ Command.decode_payload (GetBlockHeaders 16) body
             = Some (get_block_headers_data (BlockNumber 42) 10 0 false))
  ∧ (∀ header body,
       Command.encode (GetBlockHeaders 16)
         (get_block_headers_data (BlockNumber 42) 10 0 false) = Some (header, body) →
       Command.decode_payload (GetBlockHeaders 16) body
       = Some (get_block_headers_data (BlockNumber 42) 10 0 false)).
Proof.
  apply (decode_encode_declared_shape GetBlockHeaders 16
           (get_block_headers_data (BlockNumber 42) 10 0 false)).
  - unfold ETHProtocol._commands. repeat constructor.
  - vm_compute. reflexivity.
  - intros d n [= <-] Hn. vm_compute in Hn. injection Hn as <-. lia.
  - vm_compute. reflexivity.
Defined.

(** The request for block headers from block number [2 ^ 248] on is of
    the declared shape and is sent, and its body decodes to a request
    from a block hash on: the round trip does not hold for every message
    of the declared shape. *)
Lemma decode_encode_number_of_32_bytes :
  of_declared_shape GetBlockHeaders
    (get_block_headers_data (BlockNumber (2 ^ 248)) 10 0 false) = true
  ∧ (∃ header body,
       ETHProtocol.send_get_block_headers example_connection (BlockNumber (2 ^ 248))
         10 0 false [] = (Returns (), [(header, body)])
       ∧ Command.encode (GetBlockHeaders 16)
           (get_block_headers_data (BlockNumber (2 ^ 248)) 10 0 false)
         = Some (header, body)
       ∧ Command.decode_payload (GetBlockHeaders 16) body
         = Some (get_block_headers_data (Hash32 (x01 :: replicate 31 x00)) 10 0 false)
       ∧ Command.decode_payload (GetBlockHeaders 16) body
         ≠ Some (get_block_headers_data (BlockNumber (2 ^ 248)) 10 0 false))
  ∧ ¬ (∀ (c : Command.class) offset data body,
         c ∈ ETHProtocol._commands →
         of_declared_shape c data = true →
         Command.encode_payload (c offset) data = Some body →
         Command.decode_payload (c offset) body = Some data).
Proof.
  set (data := get_block_headers_data (BlockNumber (2 ^ 248)) 10 0 false).
  set (body := [xe4; xa0; x01] ++ replicate 31 x00 ++ [x0a; x80; x80]).
  assert (of_declared_shape GetBlockHeaders data = true) as Hshape by (by vm_compute).
  assert (Command.encode_payload (GetBlockHeaders 16) data = Some body) as Henc
    by (by vm_compute).
  assert (Command.decode_payload (GetBlockHeaders 16) body
          = Some (get_block_headers_data (Hash32 (x01 :: replicate 31 x00)) 10 0 false))
    as Hdec by (by vm_compute).
  assert (Command.decode_payload (GetBlockHeaders 16) body ≠ Some data) as Hdiff.
  { rewrite Hdec. intros Heq.
    apply (f_equal (λ msg, match msg with
                           | Some (Dict d) => d !! "block_number_or_hash"
                           | _ => None
                           end)) in Heq.
    vm_compute in Heq. discriminate. }
  split; [done|]. split.
  - exists [x13], body. split; [by vm_compute|]. split; [by vm_compute|]. done.
  - intros Hround. apply Hdiff.
    apply (Hround GetBlockHeaders 16 data body); [|done..].
    unfold ETHProtocol._commands. repeat constructor.
Qed.

(** C5 at a head with a genesis hash of no bytes. *)
Lemma send_handshake_status_witness :
  ∃ header body,
    ETHProtocol.send_handshake example_connection
      {| block_hash := replicate 32 xab; total_difficulty := 1000; genesis_hash := [] |} []
    = (Returns (), [(header, body)])
    ∧ Command.header_cmd_id header = Some 16
    ∧ rlp.decode body
        (sedes.List [sedes.big_endian_int; sedes.big_endian_int; sedes.big_endian_int;
                     sedes.binary; sedes.binary])
      = Some (VSeq [VInt 63; VInt 1; VInt 1000; VBytes (replicate 32 xab); VBytes []])
    ∧ Command.decode_payload (Status 16) body
      = Some (Dict {[ "protocol_version" := VInt 63; "network_id" := VInt 1;
                      "td" := VInt 1000; "best_hash" := VBytes (replicate 32 xab);
                      "genesis_hash" := VBytes [] ]}).
Proof.
  apply (send_handshake_status example_connection
           {| block_hash := replicate 32 xab; total_difficulty := 1000;
              genesis_hash := [] |} []).
  - simpl. lia.
  - simpl. lia.
  - vm_compute. reflexivity.
  - simpl. lia.
Defined.

(** C6 at a request for node data, identifier 13 at offset 16. *)
Lemma header_cmd_id_is_offset_plus_identifier_witness :
  0 ≤ _cmd_id GetNodeData ≤ 16
  ∧ Command.header_cmd_id [x1d] = Some (16 + _cmd_id GetNodeData).
Proof.
  apply (proj1 header_cmd_id_is_offset_plus_identifier GetNodeData 16 (Seq []) [x1d] [xc0]).
  - unfold ETHProtocol._commands. repeat constructor.
  - reflexivity.
Defined.

(** C7 at 385 hashes, more than each of the ceilings. *)
Lemma send_get_hashes_no_ceiling_witness :
  ∃ body header_bodies header_receipts header_nodes,
    ETHProtocol.send_get_block_bodies example_connection (replicate 385 (replicate 32 xab)) []
    = (Returns (), [(header_bodies, body)])
    ∧ ETHProtocol.send_get_receipts example_connection (replicate 385 (replicate 32 xab)) []
      = (Returns (), [(header_receipts, body)])
    ∧ ETHProtocol.send_get_node_data example_connection (replicate 385 (replicate 32 xab)) []
      = (Returns (), [(header_nodes, body)])
    ∧ rlp.decode body (sedes.CountableList sedes.binary)
      = Some (VSeq (VBytes <$> replicate 385 (replicate 32 xab))).
Proof.
  apply (send_get_hashes_no_ceiling example_connection (replicate 385 (replicate 32 xab)) []).
  - vm_compute. reflexivity.
  - simpl. lia.
Defined.

Remark more_hashes_than_the_ceilings :
  len (replicate 385 (replicate 32 xab)) > MAX_STATE_FETCH
  ∧ MAX_STATE_FETCH > MAX_RECEIPTS_FETCH
  ∧ MAX_RECEIPTS_FETCH > MAX_BODIES_FETCH.
Proof. by vm_compute. Qed.

(** C8 at a payload of two headers. *)
Lemma extract_headers_decoded_witness :
  ∃ headers : list BlockHeader,
    Seq [VHeader (Str []); VHeader (Str [x01])] = Seq (VHeader <$> headers)
    ∧ extract_headers (BlockHeaders 16) (Seq [VHeader (Str []); VHeader (Str [x01])])
      = VHeader <$> headers
    ∧ (∀ l, extract_headers (BlockHeaders 16) (Seq l) = l).
Proof.
  apply (extract_headers_decoded 16 [xc2; x80; x01]). reflexivity.
Defined.

(** X3 at a head with a negative total difficulty. *)
Lemma send_handshake_refused_witness :
  ETHProtocol.send_handshake example_connection
    {| block_hash := []; total_difficulty := -5; genesis_hash := [] |} []
  = (Raises SchemaMismatch, []).
Proof.
  apply (send_handshake_refused example_connection
           {| block_hash := []; total_difficulty := -5; genesis_hash := [] |} []).
  - vm_compute. reflexivity.
  - simpl. lia.
  - right. simpl. lia.
Defined.

(** X4 at two nodes, one of them the empty byte string. *)
Lemma sent_body_decodes_witness :
  Command.decode_payload (NodeData 16) [xc2; x01; x80]
  = Some (Seq [VBytes [x01]; VBytes []]).
Proof.
  apply (sent_body_decodes example_connection (node_data [[x01]; []]) [] [x1e]
           [xc2; x01; x80]).
  - intros start max_headers skip reverse. discriminate.
  - vm_compute. reflexivity.
Defined.

(** X5 at one transaction. *)
Lemma list_operations_return_witness :
  ∃ header body,
    perform example_connection (transactions (H:=serial_objects) [Str [x01]]) []
    = (Returns (), [(header, body)]).
Proof.
  apply (list_operations_return example_connection (transactions (H:=serial_objects) [Str [x01]]) []).
  - reflexivity.
  - vm_compute. reflexivity.
  - simpl. lia.
Defined.

(** X6 at two headers. *)
Lemma send_block_headers_extract_headers_witness :
  ∃ header body msg,
    ETHProtocol.send_block_headers (H:=serial_objects) example_connection
      [Str []; Str [x01]] []
    = (Returns (), [(header, body)])
    ∧ Command.decode_payload (BlockHeaders 16) body = Some msg
    ∧ extract_headers (BlockHeaders 16) msg = [VHeader (Str []); VHeader (Str [x01])].
Proof.
  apply (send_block_headers_extract_headers (H:=serial_objects) example_connection
           [Str []; Str [x01]] []).
  - vm_compute. reflexivity.
  - simpl. lia.
Defined.

(** X7 at the receipts of one block without receipts, sent on two
    connections; no receipts at all have another body. *)
Lemma sent_body_determines_list_witness :
  receipts (H:=serial_objects) [[]] = receipts [[]].
Proof.
  apply (sent_body_determines_list example_connection
           {| peer := {| network_id := 3 |}; cmd_id_offset := 40 |}
           (receipts [[]]) (receipts [[]]) [] [] [x20] [x38] [xc1; xc0]).
  - reflexivity.
  - reflexivity.
  - vm_compute. reflexivity.
  - vm_compute. reflexivity.
Defined.

Remark no_receipts_and_one_block_without_receipts :
  perform example_connection (receipts []) [] = (Returns (), [([x20], [xc0])])
  ∧ perform example_connection (receipts [[]]) [] = (Returns (), [([x20], [xc1; xc0])]).
Proof. split; by vm_compute. Qed.

(** X8 at the announcement of one block hash. *)
Lemma decoded_message_well_formed_witness :
  well_formed NewBlockHashes (Seq [VSeq [VBytes [xab]; VInt 5]]) = true.
Proof.
  apply (decoded_message_well_formed NewBlockHashes 16 [xc4; xc3; x81; xab; x05]).
  - unfold ETHProtocol._commands. repeat constructor.
  - vm_compute. reflexivity.
Defined.

(** X9 at a new block with one transaction and no uncles. *)
Lemma encoded_message_well_formed_witness :
  well_formed NewBlock
    (Dict {[ "block" := VSeq [VHeader (Str []); VSeq [VTransaction (Str [x01])]; VSeq []];
             "total_difficulty" := VInt 7 ]}) = true
  ∧ Command.decode_payload (NewBlock 16) [xc6; xc4; x80; xc1; x01; xc0; x07]
    = Some (Dict {[ "block" := VSeq [VHeader (Str []); VSeq [VTransaction (Str [x01])];
                                     VSeq []];
                    "total_difficulty" := VInt 7 ]}).
Proof.
  apply (encoded_message_well_formed NewBlock 16).
  - unfold ETHProtocol._commands. repeat constructor.
  - discriminate.
  - exact I.
  - vm_compute. reflexivity.
Defined.

(** X10 at [Status] and [Receipts], at offset 16. *)
Lemma absolute_command_ids_witness :
  16 ≤ Command.cmd_id (Status 16) < 16 + ETHProtocol.cmd_length
  ∧ (Command.cmd_id (Status 16) = Command.cmd_id (Receipts 16) → Status = Receipts)
  ∧ (∀ offset', 16 + ETHProtocol.cmd_length ≤ offset' →
                Command.cmd_id (Status 16) ≠ Command.cmd_id (Receipts offset')).
Proof.
  apply (absolute_command_ids Status Receipts 16).
  - unfold ETHProtocol._commands. repeat constructor.
  - unfold ETHProtocol._commands. repeat constructor.
Defined.

(** X11 at block number -1. *)
Lemma send_get_block_headers_returns_iff_witness :
  ETHProtocol.send_get_block_headers example_connection (BlockNumber (-1)) 10 0 false []
  = (Raises SchemaMismatch, []).
Proof.
  apply (send_get_block_headers_returns_iff example_connection (BlockNumber (-1)) 10 0
           false []).
  - lia.
  - vm_compute. reflexivity.
  - simpl. lia.
  - lia.
Defined.
